(** * PayPal API client of strautomator-core: token lifecycle and dispatcher

    Shallow embedding of [src/paypal/api.ts]: the error normaliser
    [parseResponseError], the token exchange [authenticate] and the
    authenticated dispatcher [makeRequest], followed by the properties the
    specification states about them.  The getter [webhookUrl] of the same
    class and four helpers of the log module ([gearwearConfig],
    [paddleEvent], [garminPing], [user]) are embedded as well.

    JavaScript values are typed after the shapes the code reads: a field
    that may be missing is an [option], numbers are integers, a falsy
    value is spelled out by a [truthy] test.  Objects the code mutates in
    place (the request options and their headers) live in a store indexed
    by references, so that aliasing between the caller's object and the
    dispatcher's copy is visible.  What the module imports ([axiosRequest],
    [database], [dayjs], [settings], [JSON]) is a field of [Env]; what it
    logs, and each call it makes, is an [Event] of the trace. *)

From Stdlib Require Import ZArith NArith Lia Ascii String DecimalString.
From stdpp Require Import base option list strings gmap fin_maps.

Local Open Scope string_scope.
Local Open Scope list_scope.

(** ** JavaScript string helpers *)

Module Js.

(** Template-literal rendering of a value that may be [undefined]. *)
Definition render (o : option string) : string :=
  match o with
  | Some s => s
  | None => "undefined"
  end.

(** Decimal rendering of a non-negative integer, as [`${n}`] gives. *)
Definition renderN (n : N) : string :=
  NilEmpty.string_of_uint (N.to_uint n).

(** Truthiness of an optional string: present and not empty. *)
Definition truthyStr (o : option string) : bool :=
  match o with
  | Some (String _ _) => true
  | _ => false
  end.

(** Truthiness of an optional number: present and not zero. *)
Definition truthyN (o : option N) : bool :=
  match o with
  | Some n => negb (N.eqb n 0)
  | None => false
  end.

Definition truthyZ (o : option Z) : bool :=
  match o with
  | Some z => negb (Z.eqb z 0)
  | None => false
  end.

(** White space removed by [String.prototype.trim] (ASCII range). *)
Definition isSpace (c : ascii) : bool :=
  let n := nat_of_ascii c in
  (Nat.leb 9 n && Nat.leb n 13) || Nat.eqb n 32.

Fixpoint trimStart (s : string) : string :=
  match s with
  | String c s' => if isSpace c then trimStart s' else s
  | EmptyString => EmptyString
  end.

Fixpoint trimEnd (s : string) : string :=
  match s with
  | String c s' =>
      match trimEnd s' with
      | EmptyString => if isSpace c then EmptyString else String c EmptyString
      | r => String c r
      end
  | EmptyString => EmptyString
  end.

Definition trim (s : string) : string := trimEnd (trimStart s).

(** [Array.prototype.join]. *)
Definition join (sep : string) (l : list string) : string :=
  String.concat sep l.

End Js.

(** ** Errors and provider error bodies *)

(** One entry of the [details] array of a provider error body. *)
Record Detail := {
  issue : option string;
  description : option string
}.

(** [err.response.data]: the provider's error body. *)
Record ErrorBody := {
  name : option string;
  message : option string;
  details : list Detail
}.

(** [err.response]; a falsy [data] (missing, null, empty) is [None]. *)
Record Response := {
  status : option N;
  data : option ErrorBody
}.

(** Values that are thrown in this module. *)
Inductive Exn :=
| TypeError (msg : string)
    (* raised by the runtime on a property read of undefined or null *)
| Error (msg : string)
    (* [new Error(msg)] *)
| AxiosError (code : string) (response : option Response)
    (* rejection of [axiosRequest]; no response on a network failure *)
| DbError (msg : string).
    (* rejection of [database.appState.set] *)

(** [err.response], undefined on errors that carry none. *)
Definition response (err : Exn) : option Response :=
  match err with
  | AxiosError _ r => r
  | _ => None
  end.

(** Result of [parseResponseError]: a string, or the error it was given. *)
Inductive Normalized :=
| NText (s : string)
| NError (err : Exn).

Section Normalise.

(** [JSON.stringify(err, null, 0)], left abstract. *)
Variable JSON_stringify : Exn -> string.

Definition statusPart (r : Response) : list string :=
  if Js.truthyN (status r)
  then ["Status " +:+ Js.renderN (default 0%N (status r))]
  else [].

Definition namePart (d : ErrorBody) : list string :=
  if Js.truthyStr (name d) then [Js.render (name d)]
  else if Js.truthyStr (message d) then [Js.render (message d)]
  else [].

Definition detailPart (d : Detail) : string :=
  Js.trim (Js.render (issue d) +:+ " " +:+ Js.render (description d)).

Definition parseResponseError (err : Exn) : Normalized :=
  match response err with
  | None => NError err
  | Some r =>
      match data r with
      | None => NError err
      | Some d =>
          let details0 := statusPart r ++ namePart d ++ map detailPart (details d) in
          let details1 :=
            match details0 with
            | [] => [JSON_stringify err]
            | _ => details0
            end in
          NText (Js.join ", " details1)
      end
  end.

End Normalise.

(** ** Credentials, request objects and the store *)

(** [PayPalAuth] of [./types]: a cached token and its local expiry. *)
Record PayPalAuth := {
  accessToken : option string;
  expiresAt : Z
}.

(** Body of a token response, as far as [authenticate] reads it. *)
Record TokenResponse := {
  access_token : option string;
  expires_in : option Z
}.

(** The options object handed to [makeRequest] (and on to axios).  The
    headers are an object of their own, held by reference. *)
Record Options := {
  method : option string;
  url : string;
  headers : option positive;
  body : option string;
  returnRepresentation : option bool
}.

Definition withHeaders (o : Options) (h : option positive) : Options :=
  {| method := method o; url := url o; headers := h;
     body := body o; returnRepresentation := returnRepresentation o |}.

Definition withUrl (o : Options) (u : string) : Options :=
  {| method := method o; url := u; headers := headers o;
     body := body o; returnRepresentation := returnRepresentation o |}.

(** [delete options.returnRepresentation]. *)
Definition deleteReturnRepresentation (o : Options) : Options :=
  {| method := method o; url := url o; headers := headers o;
     body := body o; returnRepresentation := None |}.

(** What the transport sees of an options object: its fields, with the
    headers object read through the reference. *)
Record Outbound := {
  o_method : option string;
  o_url : string;
  o_headers : gmap string string;
  o_body : option string;
  o_returnRepresentation : option bool
}.

(** The process state: the two credential slots of the singleton, the
    persisted record of the key "paypal", and the object store. *)
Record World := {
  auth : option PayPalAuth;
  mAuth : option PayPalAuth;
  db_auth : option PayPalAuth;
  db_mAuth : option PayPalAuth;
  objects : gmap positive Options;
  headerObjects : gmap positive (gmap string string)
}.

(** Observable steps of a call, in the order they happen. *)
Inductive Event :=
| EvAuthenticate (mEndpoint : bool)
| EvTokenRequest (tokenUrl : string)
| EvRequest (out : Outbound)
| EvDbSet (mEndpoint : bool) (tokenData : PayPalAuth)
| EvLogInfo (args : list string)
| EvLogError (args : list string) (detail : Normalized).

Inductive Outcome (A : Type) :=
| Fulfilled (a : A)
| Rejects (ex : Exn).
Arguments Fulfilled {A} a.
Arguments Rejects {A} ex.

(** The collaborators that are not part of this module: settings, the
    transport [axiosRequest] at its two call sites, the persistent store,
    the clock and the serialiser. *)
Record Env := {
  baseUrl : string;
  mBaseUrl : string;
  (* axiosRequest on the token endpoint; a null or undefined result is [None] *)
  tokenExchange : string -> Outcome (option TokenResponse);
  (* axiosRequest on the outbound request of makeRequest *)
  transport : Outbound -> Outcome string;
  (* database.appState.set: [Some ex] when the write is rejected *)
  appStateSetFails : bool -> PayPalAuth -> option Exn;
  (* dayjs().unix() as read by authenticate and by makeRequest *)
  unixAtToken : Z;
  unixAtCheck : Z;
  JSON_stringify : Exn -> string
}.

(** ** A state, trace and exception monad *)

Inductive Result (A : Type) :=
| Ok (a : A)
| Throw (ex : Exn).
Arguments Ok {A} a.
Arguments Throw {A} ex.

Definition M (A : Type) : Type := World -> list Event * World * Result A.

Definition ret {A} (a : A) : M A := fun w => ([], w, Ok a).

Definition throw {A} (ex : Exn) : M A := fun w => ([], w, Throw ex).

Definition bind {A B} (m : M A) (k : A -> M B) : M B :=
  fun w =>
    match m w with
    | (t1, w1, Ok a) =>
        match k a w1 with
        | (t2, w2, r) => (t1 ++ t2, w2, r)
        end
    | (t1, w1, Throw ex) => (t1, w1, Throw ex)
    end.

(** [try { m } catch (ex) { handler ex }]: effects of [m] are kept. *)
Definition tryCatch {A} (m : M A) (handler : Exn -> M A) : M A :=
  fun w =>
    match m w with
    | (t1, w1, Ok a) => (t1, w1, Ok a)
    | (t1, w1, Throw ex) =>
        match handler ex w1 with
        | (t2, w2, r) => (t1 ++ t2, w2, r)
        end
    end.

Definition emit (e : Event) : M unit := fun w => ([e], w, Ok tt).

Definition get : M World := fun w => ([], w, Ok w).

Definition modify (f : World -> World) : M unit := fun w => ([], f w, Ok tt).

Notation "x <~ m ;; k" := (bind m (fun x => k))
  (at level 100, m at next level, right associativity).
Notation "m ;;; k" := (bind m (fun _ => k))
  (at level 100, right associativity).

(** [await p] for a promise that settles as [o]. *)
Definition await {A} (o : Outcome A) : M A :=
  match o with
  | Fulfilled a => ret a
  | Rejects ex => throw ex
  end.

(** ** Store primitives *)

Definition setAuth (t : PayPalAuth) (w : World) : World :=
  {| auth := Some t; mAuth := mAuth w; db_auth := db_auth w; db_mAuth := db_mAuth w;
     objects := objects w; headerObjects := headerObjects w |}.

Definition setMAuth (t : PayPalAuth) (w : World) : World :=
  {| auth := auth w; mAuth := Some t; db_auth := db_auth w; db_mAuth := db_mAuth w;
     objects := objects w; headerObjects := headerObjects w |}.

Definition setDb (mEndpoint : bool) (t : PayPalAuth) (w : World) : World :=
  {| auth := auth w; mAuth := mAuth w;
     db_auth := if mEndpoint then db_auth w else Some t;
     db_mAuth := if mEndpoint then Some t else db_mAuth w;
     objects := objects w; headerObjects := headerObjects w |}.

Definition setObjects (f : gmap positive Options -> gmap positive Options) (w : World) : World :=
  {| auth := auth w; mAuth := mAuth w; db_auth := db_auth w; db_mAuth := db_mAuth w;
     objects := f (objects w); headerObjects := headerObjects w |}.

Definition setHeaderObjects
    (f : gmap positive (gmap string string) -> gmap positive (gmap string string))
    (w : World) : World :=
  {| auth := auth w; mAuth := mAuth w; db_auth := db_auth w; db_mAuth := db_mAuth w;
     objects := objects w; headerObjects := f (headerObjects w) |}.

(** The slot of an endpoint family: [mEndpoint ? this.mAuth : this.auth]. *)
Definition slot (mEndpoint : bool) (w : World) : option PayPalAuth :=
  if mEndpoint then mAuth w else auth w.

Definition persisted (mEndpoint : bool) (w : World) : option PayPalAuth :=
  if mEndpoint then db_mAuth w else db_auth w.

Definition undefinedRead (prop : string) : Exn :=
  TypeError ("Cannot read properties of undefined (reading '" +:+ prop +:+ "')").

Definition readObj (r : positive) (prop : string) : M Options :=
  w <~ get ;;
  match objects w !! r with
  | Some o => ret o
  | None => throw (undefinedRead prop)
  end.

Definition writeObj (r : positive) (o : Options) : M unit :=
  modify (setObjects (insert r o)).

Definition allocObj (o : Options) : M positive :=
  w <~ get ;;
  let r := fresh (dom (objects w)) in
  modify (setObjects (insert r o)) ;;; ret r.

Definition readHdr (h : positive) (prop : string) : M (gmap string string) :=
  w <~ get ;;
  match headerObjects w !! h with
  | Some hv => ret hv
  | None => throw (undefinedRead prop)
  end.

Definition writeHdr (h : positive) (hv : gmap string string) : M unit :=
  modify (setHeaderObjects (insert h hv)).

Definition allocHdr (hv : gmap string string) : M positive :=
  w <~ get ;;
  let h := fresh (dom (headerObjects w)) in
  modify (setHeaderObjects (insert h hv)) ;;; ret h.

(** [options.headers[key] = value]. *)
Definition setHeader (h : positive) (key value : string) : M unit :=
  hv <~ readHdr h key ;;
  writeHdr h (<[key := value]> hv).

(** [_.cloneDeep(reqOptions)] on an options object: a new object whose
    headers are a new object with the same entries.  A reference that
    holds no headers object stands for an absent property. *)
Definition cloneDeep (reqOptions : positive) : M positive :=
  src <~ readObj reqOptions "headers" ;;
  w <~ get ;;
  h' <~ match headers src with
        | Some h =>
            match headerObjects w !! h with
            | Some hv => h' <~ allocHdr hv ;; ret (Some h')
            | None => ret None
            end
        | None => ret None
        end ;;
  allocObj (withHeaders src h').

(** The request as the transport receives it. *)
Definition snapshot (r : positive) : M Outbound :=
  o <~ readObj r "url" ;;
  w <~ get ;;
  ret {| o_method := method o;
         o_url := url o;
         o_headers := match headers o with
                      | Some h => default ∅ (headerObjects w !! h)
                      | None => ∅
                      end;
         o_body := body o;
         o_returnRepresentation := returnRepresentation o |}.

(** ** The client *)

Section Client.

Variable env : Env.

Definition base (mEndpoint : bool) : string :=
  if mEndpoint then mBaseUrl env else baseUrl env.

Definition endpointLog (mEndpoint : bool) : string :=
  if mEndpoint then "api-m" else "api".

(** [res.expires_in ? res.expires_in : 3600] *)
Definition expiresIn (res : TokenResponse) : Z :=
  if Js.truthyZ (expires_in res) then default 0%Z (expires_in res) else 3600%Z.

Definition tokenData (res : TokenResponse) : PayPalAuth :=
  {| accessToken := access_token res;
     expiresAt := (expiresIn res + unixAtToken env - 180)%Z |}.

(** Modelled from the spec: [database.appState.set], whose module is not
    among the sources.  The record keyed by the provider name holds both
    credentials, [await database.appState.set("paypal", {auth: tokenData})]
    (or [mAuth]) replaces one and keeps the other, and a write the store
    rejects leaves the record as it was.  Whether a write is rejected is up
    to the collaborator ([appStateSetFails]). *)
Definition appStateSet (mEndpoint : bool) (t : PayPalAuth) : M unit :=
  emit (EvDbSet mEndpoint t) ;;;
  match appStateSetFails env mEndpoint t with
  | None => modify (setDb mEndpoint t)
  | Some ex => throw ex
  end.

Definition tokenUrl (mEndpoint : bool) : string :=
  base mEndpoint +:+ "v1/oauth2/token".

Definition authenticate (mEndpoint : bool) : M bool :=
  emit (EvAuthenticate mEndpoint) ;;;
  tryCatch
    (emit (EvTokenRequest (tokenUrl mEndpoint)) ;;;
     res <~ await (tokenExchange env (tokenUrl mEndpoint)) ;;
     res <~ match res with
            | Some r => ret r
            | None => throw (TypeError "Cannot read properties of null (reading 'expires_in')")
            end ;;
     let t := tokenData res in
     emit (EvLogInfo ["PayPal.authenticate"; "Got a new " +:+ endpointLog mEndpoint +:+ " token"]) ;;;
     (if mEndpoint then modify (setMAuth t) else modify (setAuth t)) ;;;
     appStateSet mEndpoint t ;;;
     ret true)
    (fun ex =>
       emit (EvLogError ["PayPal.authenticate"; endpointLog mEndpoint]
               (parseResponseError (JSON_stringify env) ex)) ;;;
       ret false).

(** First half of the [try] block of [makeRequest]: obtain a token when
    the slot read on entry ([auth0]) is empty or expired. *)
Definition ensureAuth
    (reqOptions : positive) (mEndpoint : bool) (auth0 : option PayPalAuth) : M unit :=
  match auth0 with
  | None =>
      tryCatch (authenticate mEndpoint ;;; ret tt)
               (fun innerEx => throw (Error "Not authenticated to PayPal"))
  | Some a =>
      if (expiresAt a <=? unixAtCheck env)%Z then
        orig <~ readObj reqOptions "url" ;;
        emit (EvLogInfo ["PayPal.makeRequest"; url orig;
                         "Token expired, will fetch a new one"]) ;;;
        authenticate mEndpoint ;;; ret tt
      else ret tt
  end.

(** Second half: complete the copy [options] and hand it to the
    transport. *)
Definition dispatch (options : positive) (mEndpoint : bool) : M string :=
  (* Make sure headers object is set. *)
  o <~ readObj options "headers" ;;
  h <~ match headers o with
       | Some h => ret h
       | None => h <~ allocHdr ∅ ;; writeObj options (withHeaders o (Some h)) ;;; ret h
       end ;;
  w <~ get ;;
  cred <~ match slot mEndpoint w with
          | Some c => ret c
          | None => throw (undefinedRead "accessToken")
          end ;;
  setHeader h "Authorization" ("Bearer " +:+ Js.render (accessToken cred)) ;;;
  (* Set correct full URL. *)
  o <~ readObj options "url" ;;
  (if String.eqb (substring 0 4 (url o)) "http" then ret tt
   else writeObj options (withUrl o (base mEndpoint +:+ url o))) ;;;
  (* Return full representation? *)
  o <~ readObj options "returnRepresentation" ;;
  match returnRepresentation o with
  | Some true =>
      writeObj options (deleteReturnRepresentation o) ;;;
      setHeader h "Prefer" "return=representation"
  | _ => ret tt
  end ;;;
  (* Dispatch request to PayPal. *)
  out <~ snapshot options ;;
  emit (EvRequest out) ;;;
  await (transport env out).

Definition makeRequestTry
    (reqOptions options : positive) (mEndpoint : bool) (auth0 : option PayPalAuth) : M string :=
  ensureAuth reqOptions mEndpoint auth0 ;;;
  dispatch options mEndpoint.

(** How a call to [makeRequest] settles: with the transport's result,
    or with the thrown error and the value of its [message]. *)
Inductive Settled :=
| Resolves (res : string)
| RejectsWith (ex : Exn) (message : Normalized).

Definition messageOf (ex : Exn) : string :=
  match ex with
  | TypeError m | Error m | AxiosError m _ | DbError m => m
  end.

Definition makeRequest (reqOptions : positive) (mEndpoint : bool)
    (w : World) : list Event * World * Settled :=
  match cloneDeep reqOptions w with
  | (t0, w0, Throw ex) =>
      (* no object behind the argument: nothing to clone or to log *)
      (t0, w0, RejectsWith ex (NText (messageOf ex)))
  | (t0, w0, Ok options) =>
      let auth0 := slot mEndpoint w0 in
      match makeRequestTry reqOptions options mEndpoint auth0 w0 with
      | (t1, w1, Ok res) => (t0 ++ t1, w1, Resolves res)
      | (t1, w1, Throw ex) =>
          let err := parseResponseError (JSON_stringify env) ex in
          let orig := objects w1 !! reqOptions in
          (t0 ++ t1 ++
             [EvLogError ["PayPal.makeRequest";
                          Js.render (orig ≫= method); Js.render (url <$> orig)] err],
           w1, RejectsWith ex err)
      end
  end.

End Client.

(** ** Reading a trace *)

(** How many times [authenticate] was entered. *)
Fixpoint authenticateCalls (t : list Event) : nat :=
  match t with
  | [] => 0
  | EvAuthenticate _ :: t' => S (authenticateCalls t')
  | _ :: t' => authenticateCalls t'
  end.

(** The requests handed to the transport by [makeRequest]. *)
Fixpoint requestsOf (t : list Event) : list Outbound :=
  match t with
  | [] => []
  | EvRequest out :: t' => out :: requestsOf t'
  | _ :: t' => requestsOf t'
  end.

(** ** Readings of the model

    Definitions the statements below are written with: what the
    collaborators make [authenticate] do, the request [dispatch] builds,
    and the specification's own notions. *)

(** [await] as a result. *)
Definition settle {A} (o : Outcome A) : Result A :=
  match o with
  | Fulfilled a => Ok a
  | Rejects ex => Throw ex
  end.

(** The credentials held in memory and in the persisted record. *)
Definition creds (w : World) :=
  (auth w, mAuth w, db_auth w, db_mAuth w).

(** The headers object the dispatcher writes to, and the entries it
    starts from, for an options object [o] in world [w]. *)
Definition headerRef (o : Options) (w : World) : positive :=
  match headers o with
  | Some h => h
  | None => fresh (dom (headerObjects w))
  end.

Definition headerValues (o : Options) (w : World) : gmap string string :=
  match headers o with
  | Some h => default ∅ (headerObjects w !! h)
  | None => ∅
  end.

Definition headersReady (o : Options) (w : World) : Prop :=
  match headers o with
  | Some h => is_Some (headerObjects w !! h)
  | None => True
  end.

Section Readings.

Variable env : Env.

(** The token response the exchange yields, if it yields one. *)
Definition exchangeYields (mEndpoint : bool) : option TokenResponse :=
  match tokenExchange env (tokenUrl env mEndpoint) with
  | Fulfilled (Some r) => Some r
  | _ => None
  end.

Definition storeSlot (mEndpoint : bool) (t : PayPalAuth) (w : World) : World :=
  if mEndpoint then setMAuth t w else setAuth t w.

(** The world [authenticate] leaves behind, by cases on its collaborators. *)
Definition afterAuthenticate (mEndpoint : bool) (w : World) : World * bool :=
  match exchangeYields mEndpoint with
  | None => (w, false)
  | Some r =>
      let t := tokenData env r in
      match appStateSetFails env mEndpoint t with
      | Some _ => (storeSlot mEndpoint t w, false)
      | None => (setDb mEndpoint t (storeSlot mEndpoint t w), true)
      end
  end.

(** The request [dispatch] builds from options [o] whose headers hold
    [hv], with credential [c]. *)
Definition outbound (mEndpoint : bool) (o : Options)
    (hv : gmap string string) (c : PayPalAuth) : Outbound :=
  let hv1 := <["Authorization" := "Bearer " +:+ Js.render (accessToken c)]> hv in
  {| o_method := method o;
     o_url := if String.eqb (substring 0 4 (url o)) "http" then url o
              else base env mEndpoint +:+ url o;
     o_headers := match returnRepresentation o with
                  | Some true => <["Prefer" := "return=representation"]> hv1
                  | _ => hv1
                  end;
     o_body := body o;
     o_returnRepresentation := match returnRepresentation o with
                               | Some true => None
                               | x => x
                               end |}.

(** Whether [makeRequest] asks for a token: the slot is empty, or its
    credential has [expiresAt <= now]. *)
Definition needsAuth (mEndpoint : bool) (w : World) : bool :=
  match slot mEndpoint w with
  | None => true
  | Some a => (expiresAt a <=? unixAtCheck env)%Z
  end.

(** The world once the token phase of [makeRequest] is over. *)
Definition worldAfterAuth (mEndpoint : bool) (w : World) : World :=
  if needsAuth mEndpoint w then fst (afterAuthenticate mEndpoint w) else w.

(** How [makeRequest] settles from the result of its [try] block. *)
Definition finish (r : Result string) : Settled :=
  match r with
  | Ok res => Resolves res
  | Throw ex => RejectsWith ex (parseResponseError (JSON_stringify env) ex)
  end.

End Readings.

(** The validity check in the specification's words: [getValid(family)]
    is the cached credential if present and [expiresAt > now], otherwise
    none.  The code has no such function; [needsAuth] is its test. *)
Definition getValid (mEndpoint : bool) (now : Z) (w : World) : option PayPalAuth :=
  match slot mEndpoint w with
  | Some c => if (now <? expiresAt c)%Z then Some c else None
  | None => None
  end.

Definition traceOf (run : list Event * World * Settled) : list Event := fst (fst run).
Definition worldOf (run : list Event * World * Settled) : World := snd (fst run).
Definition outcomeOf (run : list Event * World * Settled) : Settled := snd run.

(** The normalisation policy in the specification's words, part by part:
    the HTTP status if any, the provider's name or else its message if
    any, then each "issue description" pair. *)
Definition policyStatus (r : Response) : list string :=
  match status r with
  | Some (Npos p) => ["Status " +:+ Js.renderN (Npos p)]
  | _ => []
  end.

Definition policyName (d : ErrorBody) : list string :=
  match name d with
  | Some (String a s) => [String a s]
  | _ =>
      match message d with
      | Some (String a s) => [String a s]
      | _ => []
      end
  end.

Definition policyDetail (x : Detail) : string :=
  Js.trim (Js.render (issue x) +:+ " " +:+ Js.render (description x)).

Definition policyText (stringify : Exn -> string) (err : Exn)
    (r : Response) (d : ErrorBody) : string :=
  match (policyStatus r ++ policyName d ++ map policyDetail (details d))%list with
  | [] => stringify err
  | part :: parts => Js.join ", " (part :: parts)
  end.

Definition validationError : Exn :=
  AxiosError "ERR_BAD_REQUEST"
    (Some {| status := Some 422%N;
             data := Some {| name := Some "VALIDATION_ERROR";
                             message := None;
                             details := [ {| issue := Some "DUPLICATE";
                                             description := Some "already exists" |} ] |} |}).

(** ** Concrete collaborators and worlds *)

Module Fixture.

(** A world with no credential and one caller-owned request whose headers
    object holds a content type. *)
Definition planRequest : Options :=
  {| method := Some "PATCH"; url := "v1/billing/plans/P-1";
     headers := Some 1%positive; body := Some "[]";
     returnRepresentation := Some true |}.

Definition callerHeaders : gmap string string :=
  {[ "Content-Type" := "application/json" ]}.

Definition emptyWorld : World :=
  {| auth := None; mAuth := None; db_auth := None; db_mAuth := None;
     objects := {[ 1%positive := planRequest ]};
     headerObjects := {[ 1%positive := callerHeaders ]} |}.

Definition oldToken : PayPalAuth :=
  {| accessToken := Some "old"; expiresAt := 900 |}.

(** The same world with a credential that expired at 900. *)
Definition staleWorld : World :=
  {| auth := Some oldToken; mAuth := None;
     db_auth := Some oldToken; db_mAuth := None;
     objects := {[ 1%positive := planRequest ]};
     headerObjects := {[ 1%positive := callerHeaders ]} |}.

(** Collaborators at unix time [now]: the token endpoint settles as
    [exchange], the store rejects writes when [storeDown]. *)
Definition envWith (exchange : Outcome (option TokenResponse)) (storeDown : bool)
    (now : Z) : Env :=
  {| baseUrl := "https://api.paypal.com/";
     mBaseUrl := "https://api-m.paypal.com/";
     tokenExchange := fun _ => exchange;
     transport := fun _ => Fulfilled "{}";
     appStateSetFails := fun _ _ => if storeDown then Some (DbError "UNAVAILABLE") else None;
     unixAtToken := now;
     unixAtCheck := now;
     JSON_stringify := fun _ => "{}" |}.

Definition token (a : string) (e : option Z) : Outcome (option TokenResponse) :=
  Fulfilled (Some {| access_token := Some a; expires_in := e |}).

Definition networkDown : Outcome (option TokenResponse) :=
  Rejects (AxiosError "ECONNRESET" None).

End Fixture.

(** ** More readings of a trace *)

(** The URLs of the token requests made. *)
Fixpoint tokenRequestsOf (t : list Event) : list string :=
  match t with
  | [] => []
  | EvTokenRequest u :: t' => u :: tokenRequestsOf t'
  | _ :: t' => tokenRequestsOf t'
  end.

(** The writes sent to the persistent store. *)
Fixpoint storeWritesOf (t : list Event) : list (bool * PayPalAuth) :=
  match t with
  | [] => []
  | EvDbSet m c :: t' => (m, c) :: storeWritesOf t'
  | _ :: t' => storeWritesOf t'
  end.

(** ** The webhook URL *)

(** The settings [webhookUrl] reads: [settings.api.url],
    [settings.app.url] and [settings.paypal.api.urlToken]. *)
Record WebhookSettings := {
  api_url : option string;
  app_url : option string;
  urlToken : option string
}.

(** The getter [webhookUrl] of the class. *)
Definition webhookUrl (settings : WebhookSettings) : string :=
  let baseUrl :=
    if Js.truthyStr (api_url settings) then Js.render (api_url settings)
    else Js.render (app_url settings) +:+ "api/" in
  let token := urlToken settings in
  baseUrl +:+ "paypal/webhook/" +:+ Js.render token.

(** ** The log helper

    The helpers of the log module that take more than a template: lookup
    of a gear by id, the guard of [paddleEvent], the id of a Garmin ping
    and the fallbacks of [user]. *)

Module LogHelper.

(** [StravaGear], as far as the helper reads it. *)
Record StravaGear := {
  gear_id : string;
  gear_name : option string
}.

(** [lUser.profile] with its bikes and shoes; a missing list is empty. *)
Record Profile := {
  bikes : list StravaGear;
  shoes : list StravaGear
}.

(** [_.find(collection, {id: id})]: the first element with that id. *)
Definition findById (gid : string) (l : list StravaGear) : option StravaGear :=
  List.find (fun g => String.eqb (gear_id g) gid) l.

(** [UserData], as far as the helpers read it. *)
Record UserData := {
  user_id : option string;
  displayName : option string;
  profile : Profile
}.

(** [GearWearConfig], as far as the helper reads it. *)
Record GearWearConfig := {
  config_id : string
}.

Definition gearwearConfig (lUser : UserData) (lConfig : GearWearConfig) : string :=
  let bike := findById (config_id lConfig) (bikes (profile lUser)) in
  let shoe := findById (config_id lConfig) (shoes (profile lUser)) in
  let gear := match bike with Some b => Some b | None => shoe end in
  match gear with
  | Some g => "GearWear " +:+ config_id lConfig +:+ " - " +:+ Js.render (gear_name g)
  | None => "Invalid GearWear " +:+ config_id lConfig +:+ " (not found)}"
  end.

(** [EventEntity] of the Paddle SDK, as far as the helper reads it. *)
Record EventData := {
  data_id : option string
}.

Record EventEntity := {
  eventType : option string;
  eventId : option string;
  event_data : option EventData
}.

(** [paddleEvent]; its guard tests the helper itself, [!paddleEvent], and
    a function is truthy. *)
Definition paddleEvent (lEvent : option EventEntity) : Result string :=
  let paddleEventIsTruthy := true in
  if negb paddleEventIsTruthy then Ok "Activity unknown"
  else
    match lEvent with
    | None => Throw (undefinedRead "eventType")
    | Some e =>
        match event_data e with
        | None => Throw (undefinedRead "id")
        | Some d =>
            Ok (Js.render (eventType e) +:+ ": " +:+ Js.render (eventId e)
                +:+ " - " +:+ Js.render (data_id d))
        end
    end.

(** [s] without the prefix [pat], when it starts with it. *)
Fixpoint stripPrefix (pat s : string) : option string :=
  match pat, s with
  | EmptyString, _ => Some s
  | String a pat', String b s' =>
      if Ascii.eqb a b then stripPrefix pat' s' else None
  | String _ _, EmptyString => None
  end.

(** [s.replace(pat, rep)] for a string pattern: the first occurrence only. *)
Fixpoint replaceFirst (pat rep s : string) : string :=
  match stripPrefix pat s with
  | Some rest => rep +:+ rest
  | None =>
      match s with
      | String c s' => String c (replaceFirst pat rep s')
      | EmptyString => EmptyString
      end
  end.

(** [GarminPingActivityFile]; [activityId] after [toString()]. *)
Record GarminPingActivityFile := {
  activityId : string;
  activityName : option string
}.

Definition garminPing (lPing : option GarminPingActivityFile) : string :=
  match lPing with
  | None => "Ping unknown"
  | Some p =>
      let id := replaceFirst "activity" "" (activityId p) in
      let name := activityName p in
      "Garmin activity " +:+ id +:+ " - " +:+ Js.render name
  end.

(** [user]; the result is [None] when the code returns undefined. *)
Definition user (lUser : option UserData) : option string :=
  match lUser with
  | None => Some "User unknown"
  | Some u =>
      if Js.truthyStr (user_id u) && Js.truthyStr (displayName u)
      then Some ("User " +:+ Js.render (user_id u) +:+ " " +:+ Js.render (displayName u))
      else if Js.truthyStr (user_id u) then user_id u else displayName u
  end.

(** Whether the character [c] occurs in [s]. *)
Fixpoint hasChar (c : ascii) (s : string) : bool :=
  match s with
  | EmptyString => false
  | String a s' => Ascii.eqb a c || hasChar c s'
  end.

(** [s] has an occurrence of [pat]. *)
Definition occursIn (pat s : string) : Prop :=
  exists before after, s = before +:+ pat +:+ after.

End LogHelper.

(** ** More concrete worlds *)

Module Scenario.

(** A request that asks for a minimal answer itself and sets the flag to
    false, with a valid credential in the slot. *)
Definition listRequest : Options :=
  {| method := Some "GET"; url := "https://api.paypal.com/v1/billing/plans";
     headers := Some 1%positive; body := None;
     returnRepresentation := Some false |}.

Definition listHeaders : gmap string string :=
  {[ "Prefer" := "return=minimal" ]}.

Definition freshToken : PayPalAuth :=
  {| accessToken := Some "abc"; expiresAt := 4420 |}.

Definition readyWorld : World :=
  {| auth := Some freshToken; mAuth := None;
     db_auth := Some freshToken; db_mAuth := None;
     objects := {[ 1%positive := listRequest ]};
     headerObjects := {[ 1%positive := listHeaders ]} |}.

End Scenario.

(** ** Errors as the runtime may hold them

    [ErrorBody] takes every entry of [details] to be an object, as the
    provider documents it.  The code does not check this: the loop of
    [parseResponseError] reads [d.issue] on each entry, and on an entry
    that is null or undefined that read throws.  [Raw] admits such entries
    (an entry is [None]) and embeds [parseResponseError] and [authenticate]
    once more over them, with the exception that escapes made explicit. *)

Module Raw.

(** [err.response.data] with the entries of [details] as they come. *)
Record Body := {
  bodyName : option string;
  bodyMessage : option string;
  bodyDetails : list (option Detail)
}.

Record Reply := {
  replyStatus : option N;
  replyData : option Body
}.

(** Values that are thrown, their response body unchecked. *)
Inductive Thrown :=
| TypeErr (msg : string)
| Err (msg : string)
| AxiosErr (code : string) (reply : option Reply)
| DbErr (msg : string).

Definition replyOf (err : Thrown) : option Reply :=
  match err with
  | AxiosErr _ r => r
  | _ => None
  end.

(** The error a read of [d.issue] raises on a null entry. *)
Definition nullDetailRead : Thrown :=
  TypeErr "Cannot read properties of null (reading 'issue')".

(** An expression either has a value or raises. *)
Inductive Settles (A : Type) :=
| Returns (a : A)
| Raises (ex : Thrown).
Arguments Returns {A} a.
Arguments Raises {A} ex.

(** Result of [parseResponseError]: a string, or the error it was given. *)
Inductive Normal :=
| Text (s : string)
| Same (err : Thrown).

(** [for (let d of data.details) { details.push(`${d.issue} ${d.description}`.trim()) }] *)
Fixpoint pushDetails (entries : list (option Detail)) (details : list string)
    : Settles (list string) :=
  match entries with
  | [] => Returns details
  | Some d :: entries' => pushDetails entries' (details ++ [detailPart d])
  | None :: _ => Raises nullDetailRead
  end.

Definition parseResponseError (stringify : Thrown -> string) (err : Thrown)
    : Settles Normal :=
  match replyOf err with
  | None => Returns (Same err)
  | Some r =>
      match replyData r with
      | None => Returns (Same err)
      | Some d =>
          let details0 :=
            (if Js.truthyN (replyStatus r)
             then ["Status " +:+ Js.renderN (default 0%N (replyStatus r))]
             else [])
            ++ (if Js.truthyStr (bodyName d) then [Js.render (bodyName d)]
                else if Js.truthyStr (bodyMessage d) then [Js.render (bodyMessage d)]
                else []) in
          match pushDetails (bodyDetails d) details0 with
          | Raises ex => Raises ex
          | Returns details1 =>
              let details2 :=
                match details1 with
                | [] => [stringify err]
                | _ => details1
                end in
              Returns (Text (Js.join ", " details2))
          end
      end
  end.

(** Whether every entry of [details] is an object. *)
Definition shaped (err : Thrown) : bool :=
  match replyOf err with
  | Some r =>
      match replyData r with
      | Some d => forallb (fun entry => match entry with Some _ => true | None => false end)
                          (bodyDetails d)
      | None => true
      end
  | None => true
  end.

(** A typed error as a raw one, and back (the entries that are objects). *)
Definition raw (err : Exn) : Thrown :=
  match err with
  | TypeError m => TypeErr m
  | Error m => Err m
  | DbError m => DbErr m
  | AxiosError code r =>
      AxiosErr code
        (option_map (fun r =>
           {| replyStatus := status r;
              replyData := option_map (fun d =>
                {| bodyName := name d; bodyMessage := message d;
                   bodyDetails := map Some (details d) |}) (data r) |}) r)
  end.

Definition typed (err : Thrown) : Exn :=
  match err with
  | TypeErr m => TypeError m
  | Err m => Error m
  | DbErr m => DbError m
  | AxiosErr code r =>
      AxiosError code
        (option_map (fun r =>
           {| status := replyStatus r;
              data := option_map (fun d =>
                {| name := bodyName d; message := bodyMessage d;
                   details := omap (fun entry => entry) (bodyDetails d) |}) (replyData r) |}) r)
  end.

(** What the logger is given. *)
Definition logged (n : Normal) : Normalized :=
  match n with
  | Text s => NText s
  | Same err => NError (typed err)
  end.

Inductive Outcome (A : Type) :=
| Fulfils (a : A)
| Rejected (ex : Thrown).
Arguments Fulfils {A} a.
Arguments Rejected {A} ex.

(** The collaborators of [authenticate], their errors unchecked.  The
    settings and the clock are those of [settingsOf]; its transport, store
    and serialiser are not used here. *)
Record Collaborators := {
  settingsOf : Env;
  exchange : string -> Outcome (option TokenResponse);
  storeFails : bool -> PayPalAuth -> option Thrown;
  stringify : Thrown -> string
}.

Definition M (A : Type) : Type := World -> list Event * World * Settles A.

Definition ret {A} (a : A) : M A := fun w => ([], w, Returns a).

Definition throw {A} (ex : Thrown) : M A := fun w => ([], w, Raises ex).

Definition bind {A B} (m : M A) (k : A -> M B) : M B :=
  fun w =>
    match m w with
    | (t1, w1, Returns a) =>
        match k a w1 with
        | (t2, w2, r) => (t1 ++ t2, w2, r)
        end
    | (t1, w1, Raises ex) => (t1, w1, Raises ex)
    end.

Definition tryCatch {A} (m : M A) (handler : Thrown -> M A) : M A :=
  fun w =>
    match m w with
    | (t1, w1, Returns a) => (t1, w1, Returns a)
    | (t1, w1, Raises ex) =>
        match handler ex w1 with
        | (t2, w2, r) => (t1 ++ t2, w2, r)
        end
    end.

Definition emit (e : Event) : M unit := fun w => ([e], w, Returns tt).

Definition modify (f : World -> World) : M unit := fun w => ([], f w, Returns tt).

Definition await {A} (o : Outcome A) : M A :=
  match o with
  | Fulfils a => ret a
  | Rejected ex => throw ex
  end.

(** The value of an expression, inside the monad. *)
Definition eval {A} (s : Settles A) : M A := fun w => ([], w, s).

Definition appStateSet (renv : Collaborators) (mEndpoint : bool) (t : PayPalAuth) : M unit :=
  bind (emit (EvDbSet mEndpoint t)) (fun _ =>
  match storeFails renv mEndpoint t with
  | None => modify (setDb mEndpoint t)
  | Some ex => throw ex
  end).

Definition authenticate (renv : Collaborators) (mEndpoint : bool) : M bool :=
  let env := settingsOf renv in
  bind (emit (EvAuthenticate mEndpoint)) (fun _ =>
  tryCatch
    (bind (emit (EvTokenRequest (tokenUrl env mEndpoint))) (fun _ =>
     bind (await (exchange renv (tokenUrl env mEndpoint))) (fun res =>
     bind (match res with
           | Some r => ret r
           | None => throw (TypeErr "Cannot read properties of null (reading 'expires_in')")
           end) (fun res =>
     let t := tokenData env res in
     bind (emit (EvLogInfo ["PayPal.authenticate";
                            "Got a new " +:+ endpointLog mEndpoint +:+ " token"])) (fun _ =>
     bind (if mEndpoint then modify (setMAuth t) else modify (setAuth t)) (fun _ =>
     bind (appStateSet renv mEndpoint t) (fun _ =>
     ret true)))))))
    (fun ex =>
       (* logger.error(..., parseResponseError(ex)): the argument first *)
       bind (eval (parseResponseError (stringify renv) ex)) (fun detail =>
       bind (emit (EvLogError ["PayPal.authenticate"; endpointLog mEndpoint]
                     (logged detail))) (fun _ =>
       ret false)))).

(** The error the [try] block of [authenticate] throws, if it throws. *)
Definition caught (renv : Collaborators) (mEndpoint : bool) : option Thrown :=
  match exchange renv (tokenUrl (settingsOf renv) mEndpoint) with
  | Rejected ex => Some ex
  | Fulfils None => Some (TypeErr "Cannot read properties of null (reading 'expires_in')")
  | Fulfils (Some r) => storeFails renv mEndpoint (tokenData (settingsOf renv) r)
  end.

(** The typed collaborators a raw environment stands for. *)
Definition toEnv (renv : Collaborators) : Env :=
  {| baseUrl := baseUrl (settingsOf renv);
     mBaseUrl := mBaseUrl (settingsOf renv);
     tokenExchange := fun u =>
       match exchange renv u with
       | Fulfils a => Fulfilled a
       | Rejected ex => Rejects (typed ex)
       end;
     transport := transport (settingsOf renv);
     appStateSetFails := fun m t => option_map typed (storeFails renv m t);
     unixAtToken := unixAtToken (settingsOf renv);
     unixAtCheck := unixAtCheck (settingsOf renv);
     JSON_stringify := fun ex => stringify renv (raw ex) |}.

End Raw.

(** An entry of [details] that is an object. *)
Definition isObject (entry : option Detail) : bool :=
  match entry with
  | Some _ => true
  | None => false
  end.

(** A run of the typed [authenticate] read as a raw one. *)
Definition liftRun (run : list Event * World * Result bool)
    : list Event * World * Raw.Settles bool :=
  match run with
  | (t, w, Ok b) => (t, w, Raw.Returns b)
  | (t, w, Throw ex) => (t, w, Raw.Raises (Raw.raw ex))
  end.

(** * Proofs *)

(** ** Running the monad *)

Lemma bind_ok {A B} (m : M A) (k : A -> M B) w t1 w1 a :
  m w = (t1, w1, Ok a) ->
  bind m k w = (let '(t2, w2, r) := k a w1 in (t1 ++ t2, w2, r)).
Proof. intros H. unfold bind. rewrite H. reflexivity. Qed.

Lemma bind_throw {A B} (m : M A) (k : A -> M B) w t1 w1 ex :
  m w = (t1, w1, Throw ex) ->
  bind m k w = (t1, w1, Throw ex).
Proof. intros H. unfold bind. rewrite H. reflexivity. Qed.

Lemma readObj_some r prop w o :
  objects w !! r = Some o -> readObj r prop w = ([], w, Ok o).
Proof. intros H. unfold readObj, bind, get. cbn. rewrite H. reflexivity. Qed.

Lemma readObj_none r prop w :
  objects w !! r = None -> readObj r prop w = ([], w, Throw (undefinedRead prop)).
Proof. intros H. unfold readObj, bind, get. cbn. rewrite H. reflexivity. Qed.

Lemma readHdr_some h prop w hv :
  headerObjects w !! h = Some hv -> readHdr h prop w = ([], w, Ok hv).
Proof. intros H. unfold readHdr, bind, get. cbn. rewrite H. reflexivity. Qed.

Lemma setHeader_some h key value w hv :
  headerObjects w !! h = Some hv ->
  setHeader h key value w = ([], setHeaderObjects (insert h (<[key := value]> hv)) w, Ok tt).
Proof.
  intros H. unfold setHeader. rewrite (bind_ok _ _ _ _ _ _ (readHdr_some _ _ _ _ H)).
  reflexivity.
Qed.

(** ** Facts about [authenticate] *)

Section AuthenticateFacts.

Variable env : Env.

Lemma authenticate_run mEndpoint w :
  exists t,
    authenticate env mEndpoint w =
      (t, fst (afterAuthenticate env mEndpoint w), Ok (snd (afterAuthenticate env mEndpoint w)))
    /\ authenticateCalls t = 1
    /\ requestsOf t = [].
Proof.
  unfold afterAuthenticate, exchangeYields, authenticate, appStateSet,
    bind, tryCatch, emit, await, ret, throw, modify.
  destruct (tokenExchange env (tokenUrl env mEndpoint)) as [[r|]|ex]; cbn.
  - destruct (appStateSetFails env mEndpoint (tokenData env r)) as [ex|];
      destruct mEndpoint; cbn; eexists; (split; [reflexivity|]); split; reflexivity.
  - eexists; (split; [reflexivity|]); split; reflexivity.
  - eexists; (split; [reflexivity|]); split; reflexivity.
Qed.

End AuthenticateFacts.

(** ** Running [cloneDeep], [ensureAuth] and [dispatch] *)

Lemma run_bind {A B} (m : M A) (k : A -> M B) w t1 w1 a t2 w2 r :
  m w = (t1, w1, Ok a) ->
  k a w1 = (t2, w2, r) ->
  bind m k w = (t1 ++ t2, w2, r).
Proof. intros H1 H2. unfold bind. rewrite H1, H2. reflexivity. Qed.

Lemma await_run {A} (o : Outcome A) w : await o w = ([], w, settle o).
Proof. destruct o; reflexivity. Qed.

Lemma snapshot_run r w o h hv :
  objects w !! r = Some o ->
  headers o = Some h ->
  headerObjects w !! h = Some hv ->
  snapshot r w =
    ([], w, Ok {| o_method := method o; o_url := url o; o_headers := hv;
                  o_body := body o;
                  o_returnRepresentation := returnRepresentation o |}).
Proof.
  intros Ho Hh Hhv. unfold snapshot.
  rewrite (bind_ok _ _ _ _ _ _ (readObj_some _ _ _ _ Ho)).
  unfold bind, get, ret. cbn. rewrite Hh, Hhv. reflexivity.
Qed.

Lemma authenticateCalls_app t1 t2 :
  authenticateCalls (t1 ++ t2) = authenticateCalls t1 + authenticateCalls t2.
Proof.
  induction t1 as [|e t1 IH]; [reflexivity|].
  destruct e; cbn; rewrite IH; reflexivity.
Qed.

Lemma requestsOf_app t1 t2 : requestsOf (t1 ++ t2) = requestsOf t1 ++ requestsOf t2.
Proof.
  induction t1 as [|e t1 IH]; [reflexivity|].
  destruct e; cbn; rewrite IH; reflexivity.
Qed.

Lemma creds_slot m w w' : creds w' = creds w -> slot m w' = slot m w.
Proof. unfold creds, slot. intros H. destruct m; congruence. Qed.

Section Runs.

Variable env : Env.

Ltac proj :=
  cbn [objects headerObjects auth mAuth db_auth db_mAuth
       setObjects setHeaderObjects setAuth setMAuth setDb
       method url headers body returnRepresentation
       withHeaders withUrl deleteReturnRepresentation].

Ltac lookup_now :=
  proj;
  first [ eassumption
        | apply lookup_insert_eq
        | rewrite lookup_insert_eq; reflexivity ].

Ltac prim :=
  first [ apply readObj_some; lookup_now
        | apply setHeader_some; lookup_now
        | eapply snapshot_run; [ lookup_now | proj; first [ eassumption | reflexivity ] | lookup_now ]
        | apply await_run
        | reflexivity
        | eapply run_bind; [ prim | cbv beta; prim ] ].

Ltac step := eapply run_bind; [ prim | cbv beta ].

Ltac frame_obj :=
  let r' := fresh "r'" in let Hne := fresh "Hne" in
  intros r' Hne; proj; rewrite ?lookup_insert_ne by congruence; reflexivity.

Lemma dispatch_run options mEndpoint w o :
  objects w !! options = Some o ->
  headersReady o w ->
  exists t w' r,
    dispatch env options mEndpoint w = (t, w', r)
    /\ creds w' = creds w
    /\ (forall r', r' <> options -> objects w' !! r' = objects w !! r')
    /\ (forall h', h' <> headerRef o w -> headerObjects w' !! h' = headerObjects w !! h')
    /\ match slot mEndpoint w with
       | Some c =>
           let out := outbound env mEndpoint o (headerValues o w) c in
           t = [EvRequest out] /\ r = settle (transport env out)
       | None => t = [] /\ r = Throw (undefinedRead "accessToken")
       end.
Proof.
  intros Ho Hh. unfold headersReady in Hh.
  unfold dispatch, headerRef, headerValues, outbound.
  destruct (headers o) as [h|] eqn:Eh.
  - destruct Hh as [hv Hhv]. rewrite Hhv. cbn [default].
    destruct (slot mEndpoint w) as [c|] eqn:Ec.
    + destruct (String.eqb (substring 0 4 (url o)) "http") eqn:Eu;
        destruct (returnRepresentation o) as [[|]|] eqn:Er;
        do 3 eexists; (split; [
          repeat first [ step | progress (proj; rewrite ?Eh, ?Ec, ?Eu, ?Er) ]; prim |]);
        (split; [reflexivity|]); (split; [frame_obj|]); (split; [frame_obj|]);
        split; proj; rewrite ?Er, ?Eu; reflexivity.
    + do 3 eexists. split.
      { step. rewrite Eh. step. step. rewrite Ec. eapply bind_throw. reflexivity. }
      repeat split; intros; reflexivity.
  - destruct (slot mEndpoint w) as [c|] eqn:Ec.
    + destruct (String.eqb (substring 0 4 (url o)) "http") eqn:Eu;
        destruct (returnRepresentation o) as [[|]|] eqn:Er;
        do 3 eexists; (split; [
          unfold slot in *;
          repeat first [ step | progress (proj; rewrite ?Eh, ?Ec, ?Eu, ?Er) ]; prim |]);
        (split; [reflexivity|]); (split; [frame_obj|]); (split; [frame_obj|]);
        split; proj; rewrite ?Er, ?Eu; reflexivity.
    + do 3 eexists. split.
      { step. rewrite Eh. step. step. unfold slot in *. proj. rewrite Ec.
        eapply bind_throw. reflexivity. }
      split; [reflexivity|]. split; [frame_obj|]. split; [frame_obj|].
      split; reflexivity.
Qed.

Lemma cloneDeep_run reqOptions w src :
  objects w !! reqOptions = Some src ->
  exists w1 options c,
    cloneDeep reqOptions w = ([], w1, Ok options)
    /\ creds w1 = creds w
    /\ objects w !! options = None
    /\ objects w1 = <[options := c]> (objects w)
    /\ (method c, url c, body c, returnRepresentation c)
         = (method src, url src, body src, returnRepresentation src)
    /\ headersReady c w1
    /\ headerValues c w1 = headerValues src w
    /\ headerObjects w !! headerRef c w1 = None
    /\ (forall h, h <> headerRef c w1 -> headerObjects w1 !! h = headerObjects w !! h).
Proof.
  intros Hsrc. unfold cloneDeep.
  rewrite (bind_ok _ _ _ _ _ _ (readObj_some _ _ _ _ Hsrc)).
  assert (Hfo : objects w !! fresh (dom (objects w)) = None)
    by (apply not_elem_of_dom, is_fresh).
  assert (Hfh : headerObjects w !! fresh (dom (headerObjects w)) = None)
    by (apply not_elem_of_dom, is_fresh).
  unfold headersReady, headerValues, headerRef.
  destruct (headers src) as [h|] eqn:Eh.
  - destruct (headerObjects w !! h) as [hv|] eqn:Ehv.
    + exists (setObjects (insert (fresh (dom (objects w)))
                (withHeaders src (Some (fresh (dom (headerObjects w))))))
               (setHeaderObjects (insert (fresh (dom (headerObjects w))) hv) w)),
        (fresh (dom (objects w))),
        (withHeaders src (Some (fresh (dom (headerObjects w))))).
      split.
      { unfold bind, get, ret, allocHdr, allocObj, modify. cbn. rewrite Ehv. reflexivity. }
      proj. rewrite lookup_insert_eq. cbn [default].
      repeat split; try assumption; try reflexivity; eauto.
      intros h' Hne. rewrite lookup_insert_ne by congruence. reflexivity.
    + exists (setObjects (insert (fresh (dom (objects w))) (withHeaders src None)) w),
        (fresh (dom (objects w))), (withHeaders src None).
      split.
      { unfold bind, get, ret, allocHdr, allocObj, modify. cbn. rewrite Ehv. reflexivity. }
      proj. repeat split; try assumption; try reflexivity.
  - exists (setObjects (insert (fresh (dom (objects w))) (withHeaders src None)) w),
      (fresh (dom (objects w))), (withHeaders src None).
    split.
    { unfold bind, get, ret, allocHdr, allocObj, modify. cbn. reflexivity. }
    proj. repeat split; try assumption; try reflexivity.
Qed.

Lemma ensureAuth_run reqOptions mEndpoint w orig :
  objects w !! reqOptions = Some orig ->
  exists t,
    ensureAuth env reqOptions mEndpoint (slot mEndpoint w) w =
      (t, if needsAuth env mEndpoint w then fst (afterAuthenticate env mEndpoint w) else w, Ok tt)
    /\ authenticateCalls t = (if needsAuth env mEndpoint w then 1 else 0)
    /\ requestsOf t = [].
Proof.
  intros Horig. unfold ensureAuth, needsAuth.
  destruct (authenticate_run env mEndpoint w) as (ta & Hrun & Hcalls & Hreqs).
  destruct (slot mEndpoint w) as [a|].
  - destruct (expiresAt a <=? unixAtCheck env)%Z.
    + eexists. split.
      { step. step. eapply run_bind; [exact Hrun | reflexivity]. }
      rewrite !authenticateCalls_app, !requestsOf_app.
      cbn. rewrite Hcalls, Hreqs. split; [lia | reflexivity].
    + eexists. split; [reflexivity|]. split; reflexivity.
  - eexists. split.
    { unfold tryCatch. erewrite run_bind; [| exact Hrun | reflexivity]. reflexivity. }
    rewrite !authenticateCalls_app, !requestsOf_app.
    cbn. rewrite Hcalls, Hreqs. split; [lia | reflexivity].
Qed.

Lemma afterAuthenticate_store mEndpoint w :
  objects (fst (afterAuthenticate env mEndpoint w)) = objects w
  /\ headerObjects (fst (afterAuthenticate env mEndpoint w)) = headerObjects w.
Proof.
  unfold afterAuthenticate, storeSlot.
  destruct (exchangeYields env mEndpoint) as [r|]; [|split; reflexivity].
  destruct (appStateSetFails env mEndpoint (tokenData env r));
    destruct mEndpoint; split; reflexivity.
Qed.

Lemma afterAuthenticate_creds mEndpoint w w' :
  creds w' = creds w ->
  creds (fst (afterAuthenticate env mEndpoint w')) =
  creds (fst (afterAuthenticate env mEndpoint w)).
Proof.
  unfold creds, afterAuthenticate, storeSlot. intros H.
  destruct (exchangeYields env mEndpoint) as [r|]; [|exact H].
  destruct (appStateSetFails env mEndpoint (tokenData env r));
    destruct mEndpoint; cbn; congruence.
Qed.

Lemma worldAfterAuth_store mEndpoint w :
  objects (worldAfterAuth env mEndpoint w) = objects w
  /\ headerObjects (worldAfterAuth env mEndpoint w) = headerObjects w.
Proof.
  unfold worldAfterAuth. destruct (needsAuth env mEndpoint w).
  - apply afterAuthenticate_store.
  - split; reflexivity.
Qed.

Lemma worldAfterAuth_creds mEndpoint w w' :
  creds w' = creds w ->
  creds (worldAfterAuth env mEndpoint w') = creds (worldAfterAuth env mEndpoint w).
Proof.
  intros H. unfold worldAfterAuth, needsAuth.
  rewrite (creds_slot mEndpoint _ _ H).
  destruct (slot mEndpoint w) as [a|].
  - destruct (expiresAt a <=? unixAtCheck env)%Z; [|exact H].
    apply afterAuthenticate_creds, H.
  - apply afterAuthenticate_creds, H.
Qed.

Lemma outbound_ext mEndpoint o o' hv c :
  (method o', url o', body o', returnRepresentation o')
    = (method o, url o, body o, returnRepresentation o) ->
  outbound env mEndpoint o' hv c = outbound env mEndpoint o hv c.
Proof.
  intros H. injection H as Hm Hu Hb Hr. unfold outbound.
  rewrite Hm, Hu, Hb, Hr. reflexivity.
Qed.

(** The whole of [makeRequest] on an options object that exists. *)
Lemma makeRequest_run reqOptions mEndpoint w src :
  objects w !! reqOptions = Some src ->
  exists t w' s,
    makeRequest env reqOptions mEndpoint w = (t, w', s)
    /\ creds w' = creds (worldAfterAuth env mEndpoint w)
    /\ (forall r o, objects w !! r = Some o -> objects w' !! r = Some o)
    /\ (forall h hv, headerObjects w !! h = Some hv -> headerObjects w' !! h = Some hv)
    /\ authenticateCalls t = (if needsAuth env mEndpoint w then 1 else 0)
    /\ match slot mEndpoint (worldAfterAuth env mEndpoint w) with
       | Some c =>
           let out := outbound env mEndpoint src (headerValues src w) c in
           requestsOf t = [out] /\ s = finish env (settle (transport env out))
       | None =>
           requestsOf t = []
           /\ s = RejectsWith (undefinedRead "accessToken")
                             (NError (undefinedRead "accessToken"))
       end.
Proof.
  intros Hsrc.
  destruct (cloneDeep_run reqOptions w src Hsrc)
    as (w1 & options & c & Hclone & Hc1 & Hfresh & Hobj1 & Hfields & Hready & Hvals & Hhfresh & Hhframe).
  assert (Hne : options <> reqOptions) by congruence.
  assert (Hsrc1 : objects w1 !! reqOptions = Some src)
    by (rewrite Hobj1, lookup_insert_ne by exact Hne; exact Hsrc).
  destruct (ensureAuth_run reqOptions mEndpoint w1 src Hsrc1) as (t2 & Hens & Hcalls & Hreqs).
  fold (worldAfterAuth env mEndpoint w1) in Hens.
  destruct (worldAfterAuth_store mEndpoint w1) as [Hobj2 Hhdr2].
  set (w2 := worldAfterAuth env mEndpoint w1) in *.
  assert (Hopt2 : objects w2 !! options = Some c)
    by (rewrite Hobj2, Hobj1; apply lookup_insert_eq).
  assert (Hready2 : headersReady c w2)
    by (unfold headersReady in *; rewrite Hhdr2; exact Hready).
  destruct (dispatch_run options mEndpoint w2 c Hopt2 Hready2)
    as (t3 & w3 & r & Hdisp & Hc3 & Hoframe & Hhframe3 & Hcase).
  assert (Hcreds2 : creds w2 = creds (worldAfterAuth env mEndpoint w))
    by (apply worldAfterAuth_creds, Hc1).
  assert (Hneeds : needsAuth env mEndpoint w1 = needsAuth env mEndpoint w)
    by (unfold needsAuth; rewrite (creds_slot mEndpoint _ _ Hc1); reflexivity).
  assert (Href : headerRef c w2 = headerRef c w1)
    by (unfold headerRef; rewrite Hhdr2; reflexivity).
  assert (Hvals2 : headerValues c w2 = headerValues src w)
    by (unfold headerValues in *; rewrite Hhdr2; exact Hvals).
  assert (Htry : makeRequestTry env reqOptions options mEndpoint (slot mEndpoint w1) w1
                 = (t2 ++ t3, w3, r))
    by (unfold makeRequestTry; eapply run_bind; [exact Hens | exact Hdisp]).
  assert (Hframe_o : forall r0 o, objects w !! r0 = Some o -> objects w3 !! r0 = Some o).
  { intros r0 o Hr0. rewrite Hoframe by congruence.
    rewrite Hobj2, Hobj1, lookup_insert_ne by congruence. exact Hr0. }
  assert (Hframe_h : forall h hv, headerObjects w !! h = Some hv -> headerObjects w3 !! h = Some hv).
  { intros h hv Hh. rewrite Hhframe3 by (rewrite Href; congruence).
    rewrite Hhdr2, Hhframe by congruence. exact Hh. }
  rewrite (creds_slot mEndpoint _ _ Hcreds2) in Hcase.
  unfold makeRequest. rewrite Hclone, Htry.
  destruct r as [res|ex].
  - exists (t2 ++ t3), w3, (Resolves res).
    split; [reflexivity|]. split; [congruence|]. split; [exact Hframe_o|].
    split; [exact Hframe_h|].
    destruct (slot mEndpoint (worldAfterAuth env mEndpoint w)) as [cr|].
    + cbv zeta in Hcase. destruct Hcase as [Ht3 Hr].
      rewrite Hvals2, (outbound_ext _ _ _ _ _ Hfields) in Ht3, Hr.
      rewrite authenticateCalls_app, requestsOf_app, Hcalls, Hreqs, Ht3, Hneeds.
      split; [cbn; lia|]. cbv zeta. rewrite <- Hr. split; reflexivity.
    + destruct Hcase as [_ Hr]. discriminate Hr.
  - eexists _, w3, _. split; [reflexivity|]. split; [congruence|].
    split; [exact Hframe_o|]. split; [exact Hframe_h|].
    destruct (slot mEndpoint (worldAfterAuth env mEndpoint w)) as [cr|].
    + cbv zeta in Hcase. destruct Hcase as [Ht3 Hr].
      rewrite Hvals2, (outbound_ext _ _ _ _ _ Hfields) in Ht3, Hr.
      rewrite !authenticateCalls_app, !requestsOf_app, Hcalls, Hreqs, Ht3, Hneeds.
      split; [cbn; lia|]. cbv zeta. rewrite <- Hr. split; reflexivity.
    + destruct Hcase as [Ht3 Hr]. injection Hr as ->.
      rewrite !authenticateCalls_app, !requestsOf_app, Hcalls, Hreqs, Ht3, Hneeds.
      split; [cbn; lia|]. split; reflexivity.
Qed.

End Runs.


(** ** Properties of the token exchange *)

Lemma authenticate_inv env mEndpoint w t w' b :
  authenticate env mEndpoint w = (t, w', Ok b) ->
  afterAuthenticate env mEndpoint w = (w', b).
Proof.
  intros H. destruct (authenticate_run env mEndpoint w) as (t0 & Hrun & _).
  rewrite Hrun in H. injection H as _ Hw Hb.
  rewrite <- Hw, <- Hb. destruct (afterAuthenticate env mEndpoint w); reflexivity.
Qed.

Lemma exchangeYields_some env mEndpoint r :
  tokenExchange env (tokenUrl env mEndpoint) = Fulfilled (Some r) ->
  exchangeYields env mEndpoint = Some r.
Proof. intros H. unfold exchangeYields. rewrite H. reflexivity. Qed.

Lemma slot_storeSlot mEndpoint t w : slot mEndpoint (storeSlot mEndpoint t w) = Some t.
Proof. destruct mEndpoint; reflexivity. Qed.

Lemma expiresIn_nonzero r E :
  expires_in r = Some E -> E <> 0%Z -> expiresIn r = E.
Proof.
  intros HE Hne. unfold expiresIn, Js.truthyZ. rewrite HE. cbn.
  destruct (Z.eqb_spec E 0); [contradiction | reflexivity].
Qed.

Lemma expiresIn_default r :
  expires_in r = None \/ expires_in r = Some 0%Z -> expiresIn r = 3600%Z.
Proof. intros [H|H]; unfold expiresIn; rewrite H; reflexivity. Qed.

Lemma authenticate_true_inv env mEndpoint w r t w' :
  tokenExchange env (tokenUrl env mEndpoint) = Fulfilled (Some r) ->
  authenticate env mEndpoint w = (t, w', Ok true) ->
  w' = setDb mEndpoint (tokenData env r) (storeSlot mEndpoint (tokenData env r) w).
Proof.
  intros Hex Hrun. apply authenticate_inv in Hrun.
  unfold afterAuthenticate in Hrun. rewrite (exchangeYields_some _ _ _ Hex) in Hrun.
  destruct (appStateSetFails env mEndpoint (tokenData env r)); [discriminate Hrun|].
  injection Hrun as Hw. symmetry. exact Hw.
Qed.

(** C2 (as amended).  After a call of [authenticate] that returns true on a
    token response [r], the slot of the family and the persisted record hold
    the credential whose token is the response's [access_token] and whose
    [expiresAt] is [now + expires_in - 180] for a non-zero [expires_in], and
    [now + 3600 - 180] when [expires_in] is missing or zero. *)
Theorem authenticate_stores_credential env mEndpoint w r t w' :
  tokenExchange env (tokenUrl env mEndpoint) = Fulfilled (Some r) ->
  authenticate env mEndpoint w = (t, w', Ok true) ->
  exists c,
    slot mEndpoint w' = Some c
    /\ persisted mEndpoint w' = Some c
    /\ accessToken c = access_token r
    /\ (forall E, expires_in r = Some E -> E <> 0%Z ->
          expiresAt c = (unixAtToken env + E - 180)%Z)
    /\ (expires_in r = None \/ expires_in r = Some 0%Z ->
          expiresAt c = (unixAtToken env + 3600 - 180)%Z).
Proof.
  intros Hex Hrun. rewrite (authenticate_true_inv env mEndpoint w r t w' Hex Hrun).
  exists (tokenData env r).
  split; [destruct mEndpoint; reflexivity|].
  split; [destruct mEndpoint; reflexivity|].
  split; [reflexivity|]. split.
  - intros E HE Hne. cbn. rewrite (expiresIn_nonzero r E HE Hne). lia.
  - intros H. cbn. rewrite (expiresIn_default r H). lia.
Qed.

(** The example of the specification: [{access_token: "abc", expires_in: 3600}]
    at unix time 1000 gives [expiresAt = 4420]. *)
Lemma authenticate_stores_credential_witness :
  exists c,
    slot false (snd (fst (authenticate (Fixture.envWith (Fixture.token "abc" (Some 3600%Z)) false 1000)
                            false Fixture.emptyWorld))) = Some c
    /\ accessToken c = Some "abc"
    /\ expiresAt c = 4420%Z.
Proof.
  destruct (authenticate_stores_credential
              (Fixture.envWith (Fixture.token "abc" (Some 3600%Z)) false 1000)
              false Fixture.emptyWorld
              {| access_token := Some "abc"; expires_in := Some 3600%Z |}
              _ _ eq_refl eq_refl) as (c & Hs & _ & Ha & HE & _).
  exists c. split; [exact Hs|]. split; [exact Ha|].
  rewrite (HE 3600%Z eq_refl ltac:(discriminate)). reflexivity.
Defined.

(** C2, as stated, fails for a response whose [expires_in] is 0: at unix
    time 1000 the stored [expiresAt] is 4420, not [1000 + 0 - 180]. *)
Lemma authenticate_zero_lifetime :
  let env := Fixture.envWith (Fixture.token "abc" (Some 0%Z)) false 1000 in
  let run := authenticate env false Fixture.emptyWorld in
  snd run = Ok true
  /\ auth (snd (fst run)) = Some {| accessToken := Some "abc"; expiresAt := 4420 |}
  /\ (unixAtToken env + 0 - 180 = 820)%Z.
Proof. repeat split. Qed.

(** On errors of the provider's shape, which is all that [Env] can throw,
    [authenticate] returns a boolean, and that boolean is true exactly when
    the token endpoint answered with a body (any body that is not null,
    with or without an [access_token]) and the store accepted the write.
    Errors whose body is not checked are the subject of [Raw]. *)
Theorem authenticate_returns_boolean env mEndpoint w :
  exists t w' b,
    authenticate env mEndpoint w = (t, w', Ok b)
    /\ (b = true <->
        exists r, tokenExchange env (tokenUrl env mEndpoint) = Fulfilled (Some r)
                  /\ appStateSetFails env mEndpoint (tokenData env r) = None).
Proof.
  destruct (authenticate_run env mEndpoint w) as (t & Hrun & _).
  eexists _, _, _. split; [exact Hrun|].
  unfold afterAuthenticate, exchangeYields.
  destruct (tokenExchange env (tokenUrl env mEndpoint)) as [[r|]|ex]; cbn.
  - destruct (appStateSetFails env mEndpoint (tokenData env r)) as [ex|] eqn:Hdb; cbn.
    + split; [discriminate|]. intros (r' & Hr' & Hnone).
      injection Hr' as <-. congruence.
    + split; [|reflexivity]. intros _. exists r. split; [reflexivity | exact Hdb].
  - split; [discriminate|]. intros (r' & Hr' & _). discriminate Hr'.
  - split; [discriminate|]. intros (r' & Hr' & _). discriminate Hr'.
Qed.

(** A malformed token response is not a failure for the code: a body that
    carries no [access_token] makes [authenticate] return true and store a
    credential without a token. *)
Lemma authenticate_accepts_tokenless_body :
  let env := Fixture.envWith
               (Fulfilled (Some {| access_token := None; expires_in := None |}))
               false 1000 in
  let run := authenticate env false Fixture.staleWorld in
  snd run = Ok true
  /\ auth (snd (fst run)) = Some {| accessToken := None; expiresAt := 4420 |}.
Proof. repeat split. Qed.

(** C5 (as amended).  When [authenticate] returns false the persisted
    record and the slot of the other family are what they were; when the
    token exchange itself failed (rejected, or an empty response) the whole
    world is unchanged; when only the write to the store failed, the slot of
    the family already holds the new credential. *)
Theorem authenticate_failure_keeps_credential env mEndpoint w t w' :
  authenticate env mEndpoint w = (t, w', Ok false) ->
  db_auth w' = db_auth w
  /\ db_mAuth w' = db_mAuth w
  /\ slot (negb mEndpoint) w' = slot (negb mEndpoint) w
  /\ (exchangeYields env mEndpoint = None -> w' = w)
  /\ (forall r, exchangeYields env mEndpoint = Some r ->
        slot mEndpoint w' = Some (tokenData env r)).
Proof.
  intros Hrun. apply authenticate_inv in Hrun. unfold afterAuthenticate in Hrun.
  destruct (exchangeYields env mEndpoint) as [r|].
  - destruct (appStateSetFails env mEndpoint (tokenData env r)); [|discriminate Hrun].
    injection Hrun as Hw. subst w'.
    repeat split; try (destruct mEndpoint; reflexivity); try discriminate.
    intros r' Hr'. injection Hr' as <-. apply slot_storeSlot.
  - injection Hrun as Hw. subst w'.
    repeat split; try reflexivity. intros r' Hr'. discriminate Hr'.
Qed.

Lemma authenticate_failure_keeps_credential_witness :
  let env := Fixture.envWith Fixture.networkDown false 1000 in
  let w' := snd (fst (authenticate env false Fixture.staleWorld)) in
  db_auth w' = Some Fixture.oldToken
  /\ auth w' = Some Fixture.oldToken
  /\ w' = Fixture.staleWorld.
Proof.
  destruct (authenticate_failure_keeps_credential
              (Fixture.envWith Fixture.networkDown false 1000) false
              Fixture.staleWorld _ _ eq_refl) as (Hdb & _ & _ & Hsame & _).
  cbv zeta. split; [exact Hdb|]. split; [reflexivity | exact (Hsame eq_refl)].
Defined.

(** C5, as stated, fails when the store rejects the write: [authenticate]
    returns false although the slot no longer holds the credential it held
    before the call. *)
Lemma authenticate_store_down_replaces_slot :
  let env := Fixture.envWith (Fixture.token "new" (Some 3600%Z)) true 1000 in
  let run := authenticate env false Fixture.staleWorld in
  snd run = Ok false
  /\ auth Fixture.staleWorld = Some {| accessToken := Some "old"; expiresAt := 900 |}
  /\ auth (snd (fst run)) = Some {| accessToken := Some "new"; expiresAt := 4420 |}
  /\ db_auth (snd (fst run)) = Some {| accessToken := Some "old"; expiresAt := 900 |}.
Proof. repeat split. Qed.

(** ** Properties of the dispatcher *)

Lemma makeRequest_dangling env reqOptions mEndpoint w :
  objects w !! reqOptions = None ->
  makeRequest env reqOptions mEndpoint w =
    ([], w, RejectsWith (undefinedRead "headers") (NText (messageOf (undefinedRead "headers")))).
Proof.
  intros H. unfold makeRequest, cloneDeep.
  rewrite (bind_throw _ _ _ _ _ _ (readObj_none _ _ _ H)). reflexivity.
Qed.

Lemma needsAuth_getValid env mEndpoint w :
  needsAuth env mEndpoint w = false <-> is_Some (getValid mEndpoint (unixAtCheck env) w).
Proof.
  unfold needsAuth, getValid. destruct (slot mEndpoint w) as [c|].
  - destruct (Z.leb_spec (expiresAt c) (unixAtCheck env));
      destruct (Z.ltb_spec (unixAtCheck env) (expiresAt c)); try lia.
    + split; [discriminate | intros [x Hx]; discriminate Hx].
    + split; [eauto | reflexivity].
  - split; [discriminate | intros [x Hx]; discriminate Hx].
Qed.

Lemma slot_afterAuthenticate env mEndpoint w :
  slot mEndpoint (fst (afterAuthenticate env mEndpoint w)) =
    match exchangeYields env mEndpoint with
    | Some r => Some (tokenData env r)
    | None => slot mEndpoint w
    end.
Proof.
  unfold afterAuthenticate. destruct (exchangeYields env mEndpoint) as [r|]; [|reflexivity].
  destruct (appStateSetFails env mEndpoint (tokenData env r));
    destruct mEndpoint; reflexivity.
Qed.

(** The credential [dispatch] finds in the slot. *)
Lemma slot_worldAfterAuth env mEndpoint w :
  slot mEndpoint (worldAfterAuth env mEndpoint w) =
    if needsAuth env mEndpoint w then
      match exchangeYields env mEndpoint with
      | Some r => Some (tokenData env r)
      | None => slot mEndpoint w
      end
    else slot mEndpoint w.
Proof.
  unfold worldAfterAuth. destruct (needsAuth env mEndpoint w); [|reflexivity].
  apply slot_afterAuthenticate.
Qed.

Lemma outbound_authorization env mEndpoint o hv c :
  o_headers (outbound env mEndpoint o hv c) !! "Authorization"
    = Some ("Bearer " +:+ Js.render (accessToken c)).
Proof.
  unfold outbound. cbn [o_headers].
  destruct (returnRepresentation o) as [[|]|];
    rewrite ?(lookup_insert_ne _ "Prefer" "Authorization") by discriminate;
    apply lookup_insert_eq.
Qed.

(** C1 (what the code does).  With an empty slot and a token exchange that
    fails, [makeRequest] enters [authenticate] once, hands nothing to the
    transport and rejects; but the error is the runtime's TypeError on
    reading [accessToken] of the empty slot, its [message] replaced by the
    error itself, and not the [Error] "Not authenticated to PayPal" that
    the inner handler would throw. *)
Theorem makeRequest_without_credential env reqOptions mEndpoint w src :
  objects w !! reqOptions = Some src ->
  slot mEndpoint w = None ->
  exchangeYields env mEndpoint = None ->
  let run := makeRequest env reqOptions mEndpoint w in
  outcomeOf run = RejectsWith (undefinedRead "accessToken")
                              (NError (undefinedRead "accessToken"))
  /\ outcomeOf run <> RejectsWith (Error "Not authenticated to PayPal")
                                  (NError (Error "Not authenticated to PayPal"))
  /\ requestsOf (traceOf run) = []
  /\ authenticateCalls (traceOf run) = 1.
Proof.
  intros Hsrc Hslot Hex run.
  destruct (makeRequest_run env reqOptions mEndpoint w src Hsrc)
    as (t & w' & s & Hrun & _ & _ & _ & Hcalls & Hcase).
  rewrite slot_worldAfterAuth in Hcase.
  assert (Hneeds : needsAuth env mEndpoint w = true)
    by (unfold needsAuth; rewrite Hslot; reflexivity).
  rewrite Hneeds, Hex, Hslot in Hcase. rewrite Hneeds in Hcalls.
  destruct Hcase as [Hreqs Hs].
  subst run. unfold outcomeOf, traceOf. rewrite Hrun. cbn [fst snd].
  rewrite Hs. repeat split; try assumption. discriminate.
Qed.

Lemma makeRequest_without_credential_witness :
  let run := makeRequest (Fixture.envWith Fixture.networkDown false 1000)
               1%positive false Fixture.emptyWorld in
  outcomeOf run =
    RejectsWith
      (TypeError "Cannot read properties of undefined (reading 'accessToken')")
      (NError (TypeError "Cannot read properties of undefined (reading 'accessToken')"))
  /\ requestsOf (traceOf run) = [].
Proof.
  destruct (makeRequest_without_credential
              (Fixture.envWith Fixture.networkDown false 1000)
              1%positive false Fixture.emptyWorld Fixture.planRequest
              eq_refl eq_refl eq_refl) as (Hout & _ & Hreqs & _).
  split; [exact Hout | exact Hreqs].
Defined.

Lemma makeRequest_calls env reqOptions mEndpoint w src :
  objects w !! reqOptions = Some src ->
  authenticateCalls (traceOf (makeRequest env reqOptions mEndpoint w))
    = if needsAuth env mEndpoint w then 1 else 0.
Proof.
  intros Hsrc.
  destruct (makeRequest_run env reqOptions mEndpoint w src Hsrc)
    as (t & w' & s & Hrun & _ & _ & _ & Hcalls & _).
  unfold traceOf. rewrite Hrun. exact Hcalls.
Qed.

(** C7 (as amended).  One call of [makeRequest] enters [authenticate] at
    most once and hands at most one request to the transport, whatever its
    collaborators do; on a request object that exists it enters
    [authenticate] exactly once when the slot is empty or expired and not
    at all otherwise. *)
Theorem makeRequest_authenticates_at_most_once env reqOptions mEndpoint w :
  let t := traceOf (makeRequest env reqOptions mEndpoint w) in
  authenticateCalls t <= 1
  /\ length (requestsOf t) <= 1
  /\ (is_Some (objects w !! reqOptions) ->
      authenticateCalls t = if needsAuth env mEndpoint w then 1 else 0).
Proof.
  cbv zeta. unfold traceOf.
  destruct (objects w !! reqOptions) as [src|] eqn:Hsrc.
  - destruct (makeRequest_run env reqOptions mEndpoint w src Hsrc)
      as (t & w' & s & Hrun & _ & _ & _ & Hcalls & Hcase).
    rewrite Hrun. cbn [fst]. rewrite Hcalls.
    split; [destruct (needsAuth env mEndpoint w); lia|].
    split; [|reflexivity].
    destruct (slot mEndpoint (worldAfterAuth env mEndpoint w));
      destruct Hcase as [-> _]; cbn; lia.
  - rewrite (makeRequest_dangling env reqOptions mEndpoint w Hsrc). cbn.
    split; [lia|]. split; [lia|]. intros [x Hx]. discriminate Hx.
Qed.

(** C7, as stated, fails in its last part: with an expired credential and
    a failed token exchange the call does not fail; it enters
    [authenticate] once and resolves with the transport's result. *)
Lemma makeRequest_expired_does_not_fail :
  let env := Fixture.envWith Fixture.networkDown false 1000 in
  let run := makeRequest env 1%positive false Fixture.staleWorld in
  snd (authenticate env false Fixture.staleWorld) = Ok false
  /\ authenticateCalls (traceOf run) = 1
  /\ outcomeOf run = Resolves "{}".
Proof. vm_compute. repeat split. Qed.

(** C8.  [makeRequest] leaves every object and every headers object that
    existed before the call as it was: the caller's options object and the
    headers object it refers to are unchanged, the Authorization header, the
    absolute URL and the Prefer header being written to fresh copies. *)
Theorem makeRequest_keeps_caller_object env reqOptions mEndpoint w :
  let w' := worldOf (makeRequest env reqOptions mEndpoint w) in
  objects w' !! reqOptions = objects w !! reqOptions
  /\ (forall r o, objects w !! r = Some o -> objects w' !! r = Some o)
  /\ (forall h hv, headerObjects w !! h = Some hv -> headerObjects w' !! h = Some hv).
Proof.
  cbv zeta. unfold worldOf.
  destruct (objects w !! reqOptions) as [src|] eqn:Hsrc.
  - destruct (makeRequest_run env reqOptions mEndpoint w src Hsrc)
      as (t & w' & s & Hrun & _ & Hobj & Hhdr & _).
    rewrite Hrun. cbn [fst snd]. split; [apply Hobj, Hsrc|]. split; assumption.
  - rewrite (makeRequest_dangling env reqOptions mEndpoint w Hsrc). cbn [fst snd].
    split; [exact Hsrc|]. split; intros; assumption.
Qed.

(** The copy, not the caller's object, carries what the dispatcher adds. *)
Example makeRequest_writes_to_copy :
  let env := Fixture.envWith (Fixture.token "abc" (Some 3600%Z)) false 1000 in
  let run := makeRequest env 1%positive false Fixture.emptyWorld in
  objects (worldOf run) !! 1%positive = Some Fixture.planRequest
  /\ headerObjects (worldOf run) !! 1%positive = Some Fixture.callerHeaders
  /\ map (fun out => (o_url out, o_headers out !! "Authorization", o_headers out !! "Content-Type"))
       (requestsOf (traceOf run))
     = [("https://api.paypal.com/v1/billing/plans/P-1", Some "Bearer abc", Some "application/json")].
Proof. vm_compute. repeat split. Qed.

(** C3 (as amended).  The dispatcher treats the cached credential as valid
    exactly when [expiresAt > now]: on an existing request it skips
    [authenticate] if and only if [getValid] yields a credential.  After a
    call of [authenticate] that returned true at time [T] on a response
    with a non-zero lifetime [E], the check yields the stored credential at
    every time before [T + E - 180] and none, so that [makeRequest] enters
    [authenticate], at every time from [T + E - 180] on. *)
Theorem validity_window env1 env2 mEndpoint w r E t1 w1 reqOptions src :
  tokenExchange env1 (tokenUrl env1 mEndpoint) = Fulfilled (Some r) ->
  expires_in r = Some E ->
  E <> 0%Z ->
  authenticate env1 mEndpoint w = (t1, w1, Ok true) ->
  objects w1 !! reqOptions = Some src ->
  let now := unixAtCheck env2 in
  let limit := (unixAtToken env1 + E - 180)%Z in
  let calls := authenticateCalls (traceOf (makeRequest env2 reqOptions mEndpoint w1)) in
  (calls = 0 <-> is_Some (getValid mEndpoint now w1))
  /\ ((now < limit)%Z ->
      getValid mEndpoint now w1 = Some (tokenData env1 r) /\ calls = 0)
  /\ ((limit <= now)%Z ->
      getValid mEndpoint now w1 = None /\ calls = 1).
Proof.
  intros Hex HE Hne Hauth Hsrc now limit calls.
  pose proof (authenticate_true_inv env1 mEndpoint w r t1 w1 Hex Hauth) as Hw1.
  set (c := tokenData env1 r) in *.
  assert (Hslot : slot mEndpoint w1 = Some c)
    by (rewrite Hw1; destruct mEndpoint; reflexivity).
  assert (Hexp : expiresAt c = limit)
    by (subst c limit; cbn; rewrite (expiresIn_nonzero r E HE Hne); lia).
  assert (Hcalls : calls = if needsAuth env2 mEndpoint w1 then 1 else 0).
  { subst calls. apply (makeRequest_calls _ _ _ _ src Hsrc). }
  assert (Hvalid : getValid mEndpoint now w1
                   = if (now <? limit)%Z then Some c else None).
  { unfold getValid. rewrite Hslot, Hexp. reflexivity. }
  pose proof (needsAuth_getValid env2 mEndpoint w1) as Hiff. fold now in Hiff.
  split.
  - rewrite Hcalls, <- Hiff. destruct (needsAuth env2 mEndpoint w1); split; congruence.
  - split; intros Hlt; rewrite Hvalid in *.
    + destruct (Z.ltb_spec now limit); [|lia]. split; [reflexivity|].
      rewrite Hcalls. destruct Hiff as [_ Hiff]. rewrite Hiff; eauto.
    + destruct (Z.ltb_spec now limit); [lia|]. split; [reflexivity|].
      rewrite Hcalls. destruct (needsAuth env2 mEndpoint w1); [reflexivity|].
      destruct Hiff as [Hiff _]. destruct (Hiff eq_refl) as [x Hx]. discriminate Hx.
Qed.

Lemma validity_window_witness :
  let env1 := Fixture.envWith (Fixture.token "abc" (Some 3600%Z)) false 1000 in
  let w1 := snd (fst (authenticate env1 false Fixture.emptyWorld)) in
  let early := Fixture.envWith Fixture.networkDown false 4419 in
  let late := Fixture.envWith Fixture.networkDown false 4420 in
  (getValid false 4419 w1 = Some {| accessToken := Some "abc"; expiresAt := 4420 |}
   /\ authenticateCalls (traceOf (makeRequest early 1%positive false w1)) = 0)
  /\ (getValid false 4420 w1 = None
      /\ authenticateCalls (traceOf (makeRequest late 1%positive false w1)) = 1).
Proof.
  cbv zeta. split.
  - refine (proj1 (proj2 (validity_window
             (Fixture.envWith (Fixture.token "abc" (Some 3600%Z)) false 1000)
             (Fixture.envWith Fixture.networkDown false 4419)
             false Fixture.emptyWorld
             {| access_token := Some "abc"; expires_in := Some 3600%Z |} 3600%Z
             _ _ 1%positive Fixture.planRequest
             eq_refl eq_refl _ eq_refl eq_refl)) _); [discriminate | reflexivity].
  - refine (proj2 (proj2 (validity_window
             (Fixture.envWith (Fixture.token "abc" (Some 3600%Z)) false 1000)
             (Fixture.envWith Fixture.networkDown false 4420)
             false Fixture.emptyWorld
             {| access_token := Some "abc"; expires_in := Some 3600%Z |} 3600%Z
             _ _ 1%positive Fixture.planRequest
             eq_refl eq_refl _ eq_refl eq_refl)) _); [discriminate | discriminate].
Defined.

(** C3, as stated, fails for a lifetime of 0: after [authenticate] at time
    1000 the claimed limit is [1000 + 0 - 180 = 820], yet at time 1000 the
    check still yields the credential and [makeRequest] does not enter
    [authenticate]. *)
Lemma validity_window_zero_lifetime :
  let env1 := Fixture.envWith (Fixture.token "abc" (Some 0%Z)) false 1000 in
  let run1 := authenticate env1 false Fixture.emptyWorld in
  let env2 := Fixture.envWith Fixture.networkDown false 1000 in
  snd run1 = Ok true
  /\ (unixAtToken env1 + 0 - 180 <= unixAtCheck env2)%Z
  /\ getValid false 1000 (snd (fst run1))
     = Some {| accessToken := Some "abc"; expiresAt := 4420 |}
  /\ authenticateCalls (traceOf (makeRequest env2 1%positive false (snd (fst run1)))) = 0.
Proof. vm_compute. repeat split. discriminate. Qed.

(** C9.  When the caller's options have [returnRepresentation] true, every
    request handed to the transport has no [returnRepresentation] field and
    carries the header [Prefer: return=representation]. *)
Theorem makeRequest_full_representation env reqOptions mEndpoint w src :
  objects w !! reqOptions = Some src ->
  returnRepresentation src = Some true ->
  Forall (fun out => o_returnRepresentation out = None
                     /\ o_headers out !! "Prefer" = Some "return=representation")
         (requestsOf (traceOf (makeRequest env reqOptions mEndpoint w))).
Proof.
  intros Hsrc Hflag.
  destruct (makeRequest_run env reqOptions mEndpoint w src Hsrc)
    as (t & w' & s & Hrun & _ & _ & _ & _ & Hcase).
  unfold traceOf. rewrite Hrun. cbn [fst].
  destruct (slot mEndpoint (worldAfterAuth env mEndpoint w)) as [c|].
  - destruct Hcase as [-> _]. constructor; [|constructor].
    unfold outbound. cbn [o_returnRepresentation o_headers]. rewrite Hflag.
    split; [reflexivity | apply lookup_insert_eq].
  - destruct Hcase as [-> _]. constructor.
Qed.

Lemma makeRequest_full_representation_witness :
  let env := Fixture.envWith (Fixture.token "abc" (Some 3600%Z)) false 1000 in
  let sent := requestsOf (traceOf (makeRequest env 1%positive false Fixture.emptyWorld)) in
  Forall (fun out => o_returnRepresentation out = None
                     /\ o_headers out !! "Prefer" = Some "return=representation") sent
  /\ length sent = 1.
Proof.
  split.
  - exact (makeRequest_full_representation
             (Fixture.envWith (Fixture.token "abc" (Some 3600%Z)) false 1000)
             1%positive false Fixture.emptyWorld Fixture.planRequest eq_refl eq_refl).
  - reflexivity.
Defined.

(** C10 (as amended).  With a cached credential that is expired and a call
    of [authenticate] that returns false, [makeRequest] does not abort: it
    enters [authenticate] once, hands one request to the transport and
    settles as the transport does.  When the token exchange itself failed
    (the transport rejected, or the response was empty) the Authorization
    header carries the stale token and the slot still holds the stale
    credential; when the exchange answered and only the write to the store
    failed, the header carries the token just obtained. *)
Theorem makeRequest_expired_failed_refresh env reqOptions mEndpoint w src c :
  objects w !! reqOptions = Some src ->
  slot mEndpoint w = Some c ->
  (expiresAt c <= unixAtCheck env)%Z ->
  snd (authenticate env mEndpoint w) = Ok false ->
  let run := makeRequest env reqOptions mEndpoint w in
  authenticateCalls (traceOf run) = 1
  /\ exists out,
       requestsOf (traceOf run) = [out]
       /\ outcomeOf run = finish env (settle (transport env out))
       /\ (exchangeYields env mEndpoint = None ->
           o_headers out !! "Authorization"
             = Some ("Bearer " +:+ Js.render (accessToken c))
           /\ slot mEndpoint (worldOf run) = Some c)
       /\ (forall r, exchangeYields env mEndpoint = Some r ->
           o_headers out !! "Authorization"
             = Some ("Bearer " +:+ Js.render (access_token r))).
Proof.
  intros Hsrc Hslot Hexp _ run.
  destruct (makeRequest_run env reqOptions mEndpoint w src Hsrc)
    as (t & w' & s & Hrun & Hcreds & _ & _ & Hcalls & Hcase).
  assert (Hneeds : needsAuth env mEndpoint w = true).
  { unfold needsAuth. rewrite Hslot. apply Z.leb_le, Hexp. }
  pose proof (slot_worldAfterAuth env mEndpoint w) as Hafter.
  rewrite Hneeds, Hslot in Hafter.
  subst run. unfold traceOf, outcomeOf, worldOf. rewrite Hrun. cbn [fst snd].
  split; [rewrite Hcalls, Hneeds; reflexivity|].
  rewrite (creds_slot mEndpoint _ _ Hcreds).
  destruct (exchangeYields env mEndpoint) as [r|];
    rewrite Hafter in Hcase |- *; cbv zeta in Hcase; destruct Hcase as [Hreqs Hs];
    eexists; (split; [exact Hreqs|]); (split; [exact Hs|]); split.
  - discriminate.
  - intros r' Hr'. injection Hr' as <-. apply outbound_authorization.
  - intros _. split; [apply outbound_authorization | reflexivity].
  - intros r' Hr'. discriminate Hr'.
Qed.

Lemma makeRequest_expired_failed_refresh_witness :
  let env := Fixture.envWith Fixture.networkDown false 1000 in
  let run := makeRequest env 1%positive false Fixture.staleWorld in
  (exists out,
     requestsOf (traceOf run) = [out]
     /\ outcomeOf run = finish env (settle (transport env out))
     /\ o_headers out !! "Authorization" = Some "Bearer old")
  /\ outcomeOf run = Resolves "{}".
Proof.
  split.
  - destruct (makeRequest_expired_failed_refresh
                (Fixture.envWith Fixture.networkDown false 1000)
                1%positive false Fixture.staleWorld Fixture.planRequest Fixture.oldToken
                eq_refl eq_refl ltac:(discriminate) eq_refl)
      as (_ & out & Hreqs & Hout & Hstale & _).
    exists out. split; [exact Hreqs|]. split; [exact Hout|].
    exact (proj1 (Hstale eq_refl)).
  - reflexivity.
Defined.

(** C10, as stated, fails when [authenticate] returns false because the
    store rejected the write: the slot then holds the new credential, and
    the request carries the new token, not the stale one. *)
Lemma makeRequest_store_down_sends_new_token :
  let env := Fixture.envWith (Fixture.token "new" (Some 3600%Z)) true 1000 in
  let run := makeRequest env 1%positive false Fixture.staleWorld in
  slot false Fixture.staleWorld = Some {| accessToken := Some "old"; expiresAt := 900 |}
  /\ snd (authenticate env false Fixture.staleWorld) = Ok false
  /\ map (fun out => o_headers out !! "Authorization") (requestsOf (traceOf run))
     = [Some "Bearer new"].
Proof. vm_compute. repeat split. Qed.

(** ** Properties of the error normaliser *)

(** C6 (as amended).  For an error that carries a response with a body,
    [parseResponseError] returns the policy's string: "Status <code>" for a
    non-zero status, the body's non-empty name or else its non-empty
    message, then each details entry as the trimmed "<issue> <description>",
    joined by ", ", or the JSON serialisation of the error when there is no
    such part.  An error without a response, or whose response has no body,
    is returned as it is.  The error of the specification's example
    normalises to "Status 422, VALIDATION_ERROR, DUPLICATE already exists". *)
Theorem parseResponseError_policy stringify err :
  match response err with
  | Some r =>
      match data r with
      | Some d => parseResponseError stringify err = NText (policyText stringify err r d)
      | None => parseResponseError stringify err = NError err
      end
  | None => parseResponseError stringify err = NError err
  end
  /\ parseResponseError stringify validationError
     = NText "Status 422, VALIDATION_ERROR, DUPLICATE already exists".
Proof.
  split; [|reflexivity].
  unfold parseResponseError.
  destruct (response err) as [r|]; [|reflexivity].
  destruct (data r) as [d|]; [|reflexivity].
  unfold policyText, policyStatus, policyName, statusPart, namePart.
  f_equal.
  replace (map detailPart (details d)) with (map policyDetail (details d)) by reflexivity.
  destruct (status r) as [[|p]|]; cbn [Js.truthyN N.eqb negb default];
    destruct (name d) as [[|a s]|]; cbn [Js.truthyStr Js.render];
    destruct (message d) as [[|b s']|]; cbn [Js.truthyStr Js.render app];
    try reflexivity;
    destruct (map policyDetail (details d)); reflexivity.
Qed.

(** C6, as stated, fails on an error without a response (a network
    failure): nothing is extractable, yet the result is the error itself
    and not a string, in particular not its JSON serialisation. *)
Lemma parseResponseError_network_failure :
  let err := AxiosError "ECONNRESET" None in
  let stringify := fun _ : Exn => "{}" in
  parseResponseError stringify err = NError err
  /\ parseResponseError stringify err <> NText (stringify err).
Proof. split; [reflexivity | discriminate]. Qed.

(** ** Further properties of the dispatcher *)

(** X1.  The URL handed to the transport is the caller's URL when it starts
    with "http", and otherwise the family's base URL followed by it. *)
Theorem makeRequest_resolves_url env reqOptions mEndpoint w src :
  objects w !! reqOptions = Some src ->
  Forall (fun out =>
            o_url out = if String.eqb (substring 0 4 (url src)) "http" then url src
                        else base env mEndpoint +:+ url src)
         (requestsOf (traceOf (makeRequest env reqOptions mEndpoint w))).
Proof.
  intros Hsrc.
  destruct (makeRequest_run env reqOptions mEndpoint w src Hsrc)
    as (t & w' & s & Hrun & _ & _ & _ & _ & Hcase).
  unfold traceOf. rewrite Hrun. cbn [fst].
  destruct (slot mEndpoint (worldAfterAuth env mEndpoint w)) as [c|];
    destruct Hcase as [-> _]; repeat constructor.
Qed.

Lemma makeRequest_resolves_url_witness :
  let env := Fixture.envWith (Fixture.token "abc" (Some 3600%Z)) false 1000 in
  map o_url (requestsOf (traceOf (makeRequest env 1%positive true Fixture.emptyWorld)))
    = ["https://api-m.paypal.com/v1/billing/plans/P-1"].
Proof.
  pose proof (makeRequest_resolves_url
                (Fixture.envWith (Fixture.token "abc" (Some 3600%Z)) false 1000)
                1%positive true Fixture.emptyWorld Fixture.planRequest eq_refl) as H.
  cbv zeta.
  destruct (requestsOf (traceOf (makeRequest
              (Fixture.envWith (Fixture.token "abc" (Some 3600%Z)) false 1000)
              1%positive true Fixture.emptyWorld))) as [|out [|out' rest]] eqn:Hreqs;
    [discriminate Hreqs | | discriminate Hreqs].
  apply Forall_cons in H. destruct H as [Hurl _]. cbn [map]. rewrite Hurl. reflexivity.
Defined.

(** X2.  Once a request is handed to the transport, [makeRequest] settles as
    the transport does: it resolves with the transport's result unchanged,
    or rejects with the transport's error, whose [message] is what
    [parseResponseError] makes of it. *)
Theorem makeRequest_settles_as_transport env reqOptions mEndpoint w out :
  requestsOf (traceOf (makeRequest env reqOptions mEndpoint w)) = [out] ->
  outcomeOf (makeRequest env reqOptions mEndpoint w)
    = match transport env out with
      | Fulfilled res => Resolves res
      | Rejects ex => RejectsWith ex (parseResponseError (JSON_stringify env) ex)
      end.
Proof.
  unfold traceOf, outcomeOf.
  destruct (objects w !! reqOptions) as [src|] eqn:Hsrc.
  - destruct (makeRequest_run env reqOptions mEndpoint w src Hsrc)
      as (t & w' & s & Hrun & _ & _ & _ & _ & Hcase).
    rewrite Hrun. cbn [fst snd]. intros Hreqs.
    destruct (slot mEndpoint (worldAfterAuth env mEndpoint w)) as [c|].
    + cbv zeta in Hcase. destruct Hcase as [Ht Hs]. rewrite Ht in Hreqs.
      injection Hreqs as <-. rewrite Hs.
      destruct (transport env (outbound env mEndpoint src (headerValues src w) c));
        reflexivity.
    + destruct Hcase as [Ht _]. rewrite Ht in Hreqs. discriminate Hreqs.
  - rewrite (makeRequest_dangling env reqOptions mEndpoint w Hsrc). cbn.
    intros Hreqs. discriminate Hreqs.
Qed.

Lemma makeRequest_settles_as_transport_witness :
  let env := Fixture.envWith (Fixture.token "abc" (Some 3600%Z)) false 1000 in
  outcomeOf (makeRequest env 1%positive false Fixture.emptyWorld) = Resolves "{}".
Proof.
  cbv zeta.
  destruct (requestsOf (traceOf (makeRequest
              (Fixture.envWith (Fixture.token "abc" (Some 3600%Z)) false 1000)
              1%positive false Fixture.emptyWorld))) as [|out [|out' rest]] eqn:Hreqs;
    [discriminate Hreqs | | discriminate Hreqs].
  rewrite (makeRequest_settles_as_transport _ _ _ _ out Hreqs). reflexivity.
Defined.

(** X3.  With a cached credential whose [expiresAt] is later than now,
    [makeRequest] does not enter [authenticate], leaves both slots and the
    persisted record as they are, and hands one request to the transport
    with the cached token in the Authorization header. *)
Theorem makeRequest_valid_credential env reqOptions mEndpoint w src c :
  objects w !! reqOptions = Some src ->
  slot mEndpoint w = Some c ->
  (unixAtCheck env < expiresAt c)%Z ->
  let run := makeRequest env reqOptions mEndpoint w in
  authenticateCalls (traceOf run) = 0
  /\ creds (worldOf run) = creds w
  /\ exists out,
       requestsOf (traceOf run) = [out]
       /\ o_headers out !! "Authorization"
          = Some ("Bearer " +:+ Js.render (accessToken c)).
Proof.
  intros Hsrc Hslot Hlt run.
  destruct (makeRequest_run env reqOptions mEndpoint w src Hsrc)
    as (t & w' & s & Hrun & Hcreds & _ & _ & Hcalls & Hcase).
  assert (Hneeds : needsAuth env mEndpoint w = false).
  { unfold needsAuth. rewrite Hslot. apply Z.leb_gt, Hlt. }
  unfold worldAfterAuth in Hcreds, Hcase. rewrite Hneeds in Hcreds, Hcase, Hcalls.
  rewrite Hslot in Hcase. cbv zeta in Hcase. destruct Hcase as [Hreqs _].
  subst run. unfold traceOf, worldOf. rewrite Hrun. cbn [fst snd].
  split; [exact Hcalls|]. split; [exact Hcreds|].
  eexists. split; [exact Hreqs | apply outbound_authorization].
Qed.

Lemma makeRequest_valid_credential_witness :
  let env := Fixture.envWith Fixture.networkDown false 899 in
  let run := makeRequest env 1%positive false Fixture.staleWorld in
  authenticateCalls (traceOf run) = 0
  /\ exists out,
       requestsOf (traceOf run) = [out]
       /\ o_headers out !! "Authorization" = Some "Bearer old".
Proof.
  destruct (makeRequest_valid_credential
              (Fixture.envWith Fixture.networkDown false 899)
              1%positive false Fixture.staleWorld Fixture.planRequest Fixture.oldToken
              eq_refl eq_refl eq_refl) as (Hcalls & _ & Hout).
  split; [exact Hcalls | exact Hout].
Defined.

(** ** Further properties of the token exchange and the dispatcher *)

Lemma makeRequest_requests env reqOptions mEndpoint w src :
  objects w !! reqOptions = Some src ->
  requestsOf (traceOf (makeRequest env reqOptions mEndpoint w)) =
    match slot mEndpoint (worldAfterAuth env mEndpoint w) with
    | Some c => [outbound env mEndpoint src (headerValues src w) c]
    | None => []
    end.
Proof.
  intros Hsrc.
  destruct (makeRequest_run env reqOptions mEndpoint w src Hsrc)
    as (t & w' & s & Hrun & _ & _ & _ & _ & Hcase).
  unfold traceOf. rewrite Hrun. cbn [fst].
  destruct (slot mEndpoint (worldAfterAuth env mEndpoint w)); apply Hcase.
Qed.

Lemma slot_other_afterAuthenticate env mEndpoint w :
  slot (negb mEndpoint) (fst (afterAuthenticate env mEndpoint w)) = slot (negb mEndpoint) w.
Proof.
  unfold afterAuthenticate. destruct (exchangeYields env mEndpoint) as [r|]; [|reflexivity].
  destruct (appStateSetFails env mEndpoint (tokenData env r));
    destruct mEndpoint; reflexivity.
Qed.

(** X4.  The two endpoint families never share a slot: whatever its
    collaborators do, [authenticate] for one family leaves the in-memory
    credential of the other family, and every request object, as they
    were, and so does a whole call of [makeRequest]. *)
Theorem other_family_untouched env reqOptions mEndpoint w :
  let afterAuth := snd (fst (authenticate env mEndpoint w)) in
  let afterCall := worldOf (makeRequest env reqOptions mEndpoint w) in
  slot (negb mEndpoint) afterAuth = slot (negb mEndpoint) w
  /\ objects afterAuth = objects w
  /\ headerObjects afterAuth = headerObjects w
  /\ slot (negb mEndpoint) afterCall = slot (negb mEndpoint) w.
Proof.
  cbv zeta.
  destruct (authenticate_run env mEndpoint w) as (t & Hrun & _).
  rewrite Hrun. cbn [fst snd].
  split; [apply slot_other_afterAuthenticate|].
  split; [apply afterAuthenticate_store|].
  split; [apply afterAuthenticate_store|].
  unfold worldOf.
  destruct (objects w !! reqOptions) as [src|] eqn:Hsrc.
  - destruct (makeRequest_run env reqOptions mEndpoint w src Hsrc)
      as (t' & w' & s & Hmk & Hcreds & _).
    rewrite Hmk. cbn [fst snd].
    rewrite (creds_slot (negb mEndpoint) _ _ Hcreds).
    unfold worldAfterAuth. destruct (needsAuth env mEndpoint w); [|reflexivity].
    apply slot_other_afterAuthenticate.
  - rewrite (makeRequest_dangling env reqOptions mEndpoint w Hsrc). reflexivity.
Qed.

(** X5.  One call of [authenticate] makes exactly one token request, to
    the family's base URL followed by "v1/oauth2/token", and hands nothing
    to the request transport.  It writes to the persistent store only after
    the token endpoint answered with a body, once, under the family's key
    and with the credential it has just put in the slot; when the exchange
    fails the store is not written to. *)
Theorem authenticate_trace env mEndpoint w :
  let t := fst (fst (authenticate env mEndpoint w)) in
  tokenRequestsOf t = [base env mEndpoint +:+ "v1/oauth2/token"]
  /\ requestsOf t = []
  /\ storeWritesOf t =
       match exchangeYields env mEndpoint with
       | Some r => [(mEndpoint, tokenData env r)]
       | None => []
       end
  /\ (forall r, exchangeYields env mEndpoint = Some r ->
        slot mEndpoint (snd (fst (authenticate env mEndpoint w))) = Some (tokenData env r)).
Proof.
  cbv zeta. split; [|split; [|split]].
  - unfold authenticate, appStateSet, bind, tryCatch, emit, await, ret, throw, modify.
    destruct (tokenExchange env (tokenUrl env mEndpoint)) as [[r|]|ex]; cbn;
      [destruct (appStateSetFails env mEndpoint (tokenData env r)); destruct mEndpoint | |];
      reflexivity.
  - destruct (authenticate_run env mEndpoint w) as (t & Hrun & _ & Hreqs).
    rewrite Hrun. exact Hreqs.
  - unfold exchangeYields, authenticate, appStateSet, bind, tryCatch, emit, await,
      ret, throw, modify.
    destruct (tokenExchange env (tokenUrl env mEndpoint)) as [[r|]|ex]; cbn;
      [destruct (appStateSetFails env mEndpoint (tokenData env r)); destruct mEndpoint | |];
      reflexivity.
  - intros r Hr. destruct (authenticate_run env mEndpoint w) as (t & Hrun & _).
    rewrite Hrun. cbn [fst snd]. rewrite slot_afterAuthenticate, Hr. reflexivity.
Qed.

Lemma creds_persisted m w w' : creds w' = creds w -> persisted m w' = persisted m w.
Proof. unfold creds, persisted. intros H. destruct m; congruence. Qed.

(** X6.  Authentication on demand: when the slot is empty or its credential
    expired and the token endpoint answers with a body, [makeRequest] enters
    [authenticate] once and the one request it hands to the transport
    carries the token just obtained; afterwards the slot holds the new
    credential, and so does the persisted record if the store accepted the
    write. *)
Theorem makeRequest_obtains_token env reqOptions mEndpoint w src r :
  objects w !! reqOptions = Some src ->
  needsAuth env mEndpoint w = true ->
  exchangeYields env mEndpoint = Some r ->
  let run := makeRequest env reqOptions mEndpoint w in
  authenticateCalls (traceOf run) = 1
  /\ slot mEndpoint (worldOf run) = Some (tokenData env r)
  /\ (appStateSetFails env mEndpoint (tokenData env r) = None ->
      persisted mEndpoint (worldOf run) = Some (tokenData env r))
  /\ exists out,
       requestsOf (traceOf run) = [out]
       /\ o_headers out !! "Authorization"
          = Some ("Bearer " +:+ Js.render (access_token r)).
Proof.
  intros Hsrc Hneeds Hex run.
  pose proof (makeRequest_requests env reqOptions mEndpoint w src Hsrc) as Hreqs.
  pose proof (makeRequest_calls env reqOptions mEndpoint w src Hsrc) as Hcalls.
  destruct (makeRequest_run env reqOptions mEndpoint w src Hsrc)
    as (t & w' & s & Hrun & Hcreds & _).
  pose proof (slot_worldAfterAuth env mEndpoint w) as Hslot.
  rewrite Hneeds, Hex in Hslot. rewrite Hslot in Hreqs. rewrite Hneeds in Hcalls.
  subst run. split; [exact Hcalls|].
  rewrite Hrun in Hreqs. unfold worldOf. rewrite Hrun. cbn [fst snd].
  split; [rewrite (creds_slot mEndpoint _ _ Hcreds); exact Hslot|].
  split.
  - intros Hdb. rewrite (creds_persisted mEndpoint _ _ Hcreds).
    unfold worldAfterAuth, afterAuthenticate. rewrite Hneeds, Hex, Hdb.
    destruct mEndpoint; reflexivity.
  - eexists. split; [exact Hreqs | apply outbound_authorization].
Qed.

Lemma makeRequest_obtains_token_witness :
  let env := Fixture.envWith (Fixture.token "abc" (Some 3600%Z)) false 1000 in
  let run := makeRequest env 1%positive false Fixture.staleWorld in
  auth (worldOf run) = Some {| accessToken := Some "abc"; expiresAt := 4420 |}
  /\ db_auth (worldOf run) = Some {| accessToken := Some "abc"; expiresAt := 4420 |}
  /\ exists out,
       requestsOf (traceOf run) = [out]
       /\ o_headers out !! "Authorization" = Some "Bearer abc".
Proof.
  destruct (makeRequest_obtains_token
              (Fixture.envWith (Fixture.token "abc" (Some 3600%Z)) false 1000)
              1%positive false Fixture.staleWorld Fixture.planRequest
              {| access_token := Some "abc"; expires_in := Some 3600%Z |}
              eq_refl eq_refl eq_refl) as (_ & Hslot & Hdb & Hout).
  split; [exact Hslot|]. split; [exact (Hdb eq_refl) | exact Hout].
Defined.

(** X7.  What the caller supplied reaches the transport: the method and the
    body of every request handed over are the caller's, and so is every
    header of the caller's headers object other than Authorization and
    Prefer. *)
Theorem makeRequest_carries_caller_fields env reqOptions mEndpoint w src :
  objects w !! reqOptions = Some src ->
  Forall (fun out =>
            o_method out = method src
            /\ o_body out = body src
            /\ forall key, key <> "Authorization" -> key <> "Prefer" ->
                 o_headers out !! key = headerValues src w !! key)
         (requestsOf (traceOf (makeRequest env reqOptions mEndpoint w))).
Proof.
  intros Hsrc. rewrite (makeRequest_requests env reqOptions mEndpoint w src Hsrc).
  destruct (slot mEndpoint (worldAfterAuth env mEndpoint w)) as [c|]; constructor;
    [|constructor].
  split; [reflexivity|]. split; [reflexivity|].
  intros key Hauth Hprefer. unfold outbound. cbn [o_headers].
  destruct (returnRepresentation src) as [[|]|];
    rewrite ?(lookup_insert_ne _ "Prefer" key) by congruence;
    apply lookup_insert_ne; congruence.
Qed.

Lemma makeRequest_carries_caller_fields_witness :
  let env := Fixture.envWith (Fixture.token "abc" (Some 3600%Z)) false 1000 in
  let sent := requestsOf (traceOf (makeRequest env 1%positive false Fixture.emptyWorld)) in
  Forall (fun out =>
            o_method out = Some "PATCH"
            /\ o_body out = Some "[]"
            /\ forall key, key <> "Authorization" -> key <> "Prefer" ->
                 o_headers out !! key = Fixture.callerHeaders !! key) sent
  /\ length sent = 1.
Proof.
  split.
  - exact (makeRequest_carries_caller_fields
             (Fixture.envWith (Fixture.token "abc" (Some 3600%Z)) false 1000)
             1%positive false Fixture.emptyWorld Fixture.planRequest eq_refl).
  - reflexivity.
Defined.

(** X8.  Without the flag nothing is added: when the caller's
    [returnRepresentation] is absent or false, every request handed to the
    transport keeps that field as the caller gave it (a false flag is
    passed on) and its Prefer header is the caller's, if any. *)
Theorem makeRequest_without_flag env reqOptions mEndpoint w src :
  objects w !! reqOptions = Some src ->
  returnRepresentation src <> Some true ->
  Forall (fun out =>
            o_returnRepresentation out = returnRepresentation src
            /\ o_headers out !! "Prefer" = headerValues src w !! "Prefer")
         (requestsOf (traceOf (makeRequest env reqOptions mEndpoint w))).
Proof.
  intros Hsrc Hflag. rewrite (makeRequest_requests env reqOptions mEndpoint w src Hsrc).
  destruct (slot mEndpoint (worldAfterAuth env mEndpoint w)) as [c|]; constructor;
    [|constructor].
  unfold outbound. cbn [o_returnRepresentation o_headers].
  destruct (returnRepresentation src) as [[|]|]; [contradiction| |];
    (split; [reflexivity | apply lookup_insert_ne; discriminate]).
Qed.

Lemma makeRequest_without_flag_witness :
  let env := Fixture.envWith Fixture.networkDown false 1000 in
  let sent := requestsOf (traceOf (makeRequest env 1%positive false Scenario.readyWorld)) in
  Forall (fun out =>
            o_returnRepresentation out = Some false
            /\ o_headers out !! "Prefer" = Some "return=minimal") sent
  /\ map o_url sent = ["https://api.paypal.com/v1/billing/plans"].
Proof.
  split.
  - exact (makeRequest_without_flag
             (Fixture.envWith Fixture.networkDown false 1000)
             1%positive false Scenario.readyWorld Scenario.listRequest
             eq_refl ltac:(discriminate)).
  - reflexivity.
Defined.

Lemma makeRequest_trace_shape env reqOptions mEndpoint w src :
  objects w !! reqOptions = Some src ->
  exists before sent after,
    traceOf (makeRequest env reqOptions mEndpoint w) = before ++ sent ++ after
    /\ requestsOf before = []
    /\ (sent = [] \/ exists out, sent = [EvRequest out])
    /\ (after = [] \/ exists args detail, after = [EvLogError args detail]).
Proof.
  intros Hsrc.
  destruct (cloneDeep_run reqOptions w src Hsrc)
    as (w1 & options & c & Hclone & Hc1 & Hfresh & Hobj1 & _ & Hready & _).
  assert (Hne : options <> reqOptions) by congruence.
  assert (Hsrc1 : objects w1 !! reqOptions = Some src)
    by (rewrite Hobj1, lookup_insert_ne by exact Hne; exact Hsrc).
  destruct (ensureAuth_run env reqOptions mEndpoint w1 src Hsrc1) as (t2 & Hens & _ & Hreqs).
  fold (worldAfterAuth env mEndpoint w1) in Hens.
  destruct (worldAfterAuth_store env mEndpoint w1) as [Hobj2 Hhdr2].
  set (w2 := worldAfterAuth env mEndpoint w1) in *.
  assert (Hopt2 : objects w2 !! options = Some c)
    by (rewrite Hobj2, Hobj1; apply lookup_insert_eq).
  assert (Hready2 : headersReady c w2)
    by (unfold headersReady in *; rewrite Hhdr2; exact Hready).
  destruct (dispatch_run env options mEndpoint w2 c Hopt2 Hready2)
    as (t3 & w3 & r & Hdisp & _ & _ & _ & Hcase).
  assert (Htry : makeRequestTry env reqOptions options mEndpoint (slot mEndpoint w1) w1
                 = (t2 ++ t3, w3, r))
    by (unfold makeRequestTry; eapply run_bind; [exact Hens | exact Hdisp]).
  assert (Hsent : t3 = [] \/ exists out, t3 = [EvRequest out]).
  { destruct (slot mEndpoint w2); cbv zeta in Hcase; destruct Hcase as [-> _]; eauto. }
  unfold traceOf, makeRequest. rewrite Hclone, Htry.
  destruct r as [res|ex]; cbn [fst app].
  - exists t2, t3, []. rewrite app_nil_r. eauto.
  - exists t2, t3, [EvLogError ["PayPal.makeRequest";
                      Js.render (objects w3 !! reqOptions ≫= method);
                      Js.render (url <$> objects w3 !! reqOptions)]
                     (parseResponseError (JSON_stringify env) ex)].
    rewrite app_assoc. split; [reflexivity|]. split; [exact Hreqs|].
    split; [exact Hsent|]. right. eauto.
Qed.

(** X9.  The request is the last thing a call does: when [makeRequest]
    hands a request to the transport, everything else of the call (entering
    [authenticate], the token request, the write to the store) lies before
    it in the trace, and the only thing that may follow is the one error log
    of a rejected request. *)
Theorem makeRequest_request_is_last env reqOptions mEndpoint w out :
  requestsOf (traceOf (makeRequest env reqOptions mEndpoint w)) = [out] ->
  exists before after,
    traceOf (makeRequest env reqOptions mEndpoint w) = before ++ EvRequest out :: after
    /\ requestsOf before = []
    /\ authenticateCalls after = 0
    /\ tokenRequestsOf after = []
    /\ storeWritesOf after = []
    /\ (after = [] \/ exists args detail, after = [EvLogError args detail]).
Proof.
  intros Hout.
  destruct (objects w !! reqOptions) as [src|] eqn:Hsrc.
  - destruct (makeRequest_trace_shape env reqOptions mEndpoint w src Hsrc)
      as (before & sent & after & Ht & Hbefore & Hsent & Hafter).
    rewrite Ht, !requestsOf_app, Hbefore in Hout. cbn [app] in Hout.
    assert (Hreq_after : requestsOf after = [])
      by (destruct Hafter as [->|(a & d & ->)]; reflexivity).
    rewrite Hreq_after, app_nil_r in Hout.
    destruct Hsent as [->|(out' & ->)]; [discriminate Hout|].
    cbn in Hout. injection Hout as ->.
    exists before, after. split; [exact Ht|]. split; [exact Hbefore|].
    destruct Hafter as [->|(a & d & ->)]; cbn; repeat split; eauto.
  - rewrite (makeRequest_dangling env reqOptions mEndpoint w Hsrc) in Hout.
    discriminate Hout.
Qed.

Lemma makeRequest_request_is_last_witness :
  let env := Fixture.envWith (Fixture.token "abc" (Some 3600%Z)) false 1000 in
  let t := traceOf (makeRequest env 1%positive false Fixture.staleWorld) in
  (exists out before after,
     t = before ++ EvRequest out :: after
     /\ requestsOf before = []
     /\ authenticateCalls after = 0
     /\ tokenRequestsOf after = [])
  /\ authenticateCalls t = 1
  /\ tokenRequestsOf t = ["https://api.paypal.com/v1/oauth2/token"].
Proof.
  cbv zeta. split; [|split; reflexivity].
  destruct (requestsOf (traceOf (makeRequest
              (Fixture.envWith (Fixture.token "abc" (Some 3600%Z)) false 1000)
              1%positive false Fixture.staleWorld))) as [|out [|out' rest]] eqn:Hreqs;
    [discriminate Hreqs | | discriminate Hreqs].
  destruct (makeRequest_request_is_last _ _ _ _ out Hreqs)
    as (before & after & Ht & Hbefore & Hcalls & Htok & _).
  exists out, before, after. split; [exact Ht|]. split; [exact Hbefore|].
  split; [exact Hcalls | exact Htok].
Defined.

(** ** Further properties of the error normaliser *)

Lemma append_empty_r (s : string) : s +:+ "" = s.
Proof.
  induction s as [|a s IH]; [reflexivity|].
  change (String a (s +:+ "") = String a s). f_equal. exact IH.
Qed.

Lemma append_assoc' (a b c : string) : (a +:+ b) +:+ c = a +:+ (b +:+ c).
Proof.
  induction a as [|x a IH]; [reflexivity|].
  change (String x ((a +:+ b) +:+ c) = String x (a +:+ (b +:+ c))). f_equal. exact IH.
Qed.

Lemma join_cons_prefix sep x l :
  exists rest, Js.join sep (x :: l) = x +:+ rest.
Proof.
  unfold Js.join. destruct l as [|y l]; cbn.
  - exists "". symmetry. apply append_empty_r.
  - eexists. reflexivity.
Qed.

(** X10.  The serialiser is a last resort: for an error whose response has
    a body, [parseResponseError] returns the JSON serialisation alone when
    the status is missing or zero, name and message are missing or empty
    and there are no details, and otherwise does not depend on the
    serialiser at all. *)
Theorem parseResponseError_serializer_last stringify stringify' err r d :
  response err = Some r ->
  data r = Some d ->
  let extractable :=
    Js.truthyN (status r) || Js.truthyStr (name d) || Js.truthyStr (message d)
    || negb (Nat.eqb (length (details d)) 0) in
  (extractable = false -> parseResponseError stringify err = NText (stringify err))
  /\ (extractable = true ->
      parseResponseError stringify err = parseResponseError stringify' err).
Proof.
  intros Hr Hd extractable. subst extractable.
  unfold parseResponseError. rewrite Hr, Hd. unfold statusPart, namePart.
  destruct (Js.truthyN (status r)); cbn [orb app].
  - split; [discriminate | reflexivity].
  - destruct (Js.truthyStr (name d)); cbn [orb app].
    + split; [discriminate | reflexivity].
    + destruct (Js.truthyStr (message d)); cbn [orb app].
      * split; [discriminate | reflexivity].
      * destruct (details d) as [|x l]; cbn.
        -- split; [reflexivity | discriminate].
        -- split; [discriminate | reflexivity].
Qed.

Lemma parseResponseError_serializer_last_witness :
  let bare := AxiosError "ERR_BAD_RESPONSE"
                (Some {| status := None;
                         data := Some {| name := None; message := Some ""; details := [] |} |}) in
  parseResponseError (fun _ => "{raw}") bare = NText "{raw}"
  /\ parseResponseError (fun _ => "{raw}") validationError
     = parseResponseError (fun _ => "") validationError.
Proof.
  split.
  - exact (proj1 (parseResponseError_serializer_last (fun _ => "{raw}") (fun _ => "")
                    (AxiosError "ERR_BAD_RESPONSE"
                       (Some {| status := None;
                                data := Some {| name := None; message := Some "";
                                                details := [] |} |}))
                    _ _ eq_refl eq_refl) eq_refl).
  - exact (proj2 (parseResponseError_serializer_last (fun _ => "{raw}") (fun _ => "")
                    validationError _ _ eq_refl eq_refl) eq_refl).
Defined.

(** X11.  The status comes first: for an error whose response has a body
    and a non-zero status, the text [parseResponseError] returns starts with
    "Status " followed by the status in decimal; without a status but with
    a non-empty name it starts with the name. *)
Theorem parseResponseError_leading_part stringify err r d :
  response err = Some r ->
  data r = Some d ->
  (forall code, status r = Some code -> code <> 0%N ->
     exists rest,
       parseResponseError stringify err
         = NText ("Status " +:+ Js.renderN code +:+ rest))
  /\ (Js.truthyN (status r) = false -> forall n, name d = Some n -> n <> "" ->
      exists rest, parseResponseError stringify err = NText (n +:+ rest)).
Proof.
  intros Hr Hd. unfold parseResponseError. rewrite Hr, Hd.
  unfold statusPart, namePart. split.
  - intros code Hcode Hne. rewrite Hcode. cbn [Js.truthyN default].
    destruct (N.eqb_spec code 0); [contradiction|]. cbn [negb app].
    destruct (join_cons_prefix ", " ("Status " +:+ Js.renderN code)
                (namePart d ++ map detailPart (details d))) as [rest Hrest].
    exists rest. unfold namePart in Hrest. unfold id. rewrite Hrest.
    rewrite append_assoc'. reflexivity.
  - intros Hstatus n Hname Hne. rewrite Hstatus, Hname.
    destruct n as [|a n]; [contradiction|]. cbn [Js.truthyStr Js.render app].
    destruct (join_cons_prefix ", " (String a n) (map detailPart (details d)))
      as [rest Hrest].
    exists rest. rewrite Hrest. reflexivity.
Qed.

Lemma parseResponseError_leading_part_witness :
  exists rest,
    parseResponseError (fun _ => "{}") validationError
      = NText ("Status 422" +:+ rest).
Proof.
  destruct (proj1 (parseResponseError_leading_part (fun _ => "{}") validationError
                     _ _ eq_refl eq_refl) 422%N eq_refl ltac:(discriminate))
    as [rest Hrest].
  exists rest. exact Hrest.
Defined.

(** ** Properties of the webhook URL *)

(** X12.  The webhook URL carries the token and nothing else varies with
    it: under the same [settings.api.url] and [settings.app.url], two
    settings give the same URL exactly when their tokens render the same.
    When [settings.api.url] is set and not empty, [settings.app.url] is not
    used. *)
Theorem webhookUrl_token s1 s2 :
  api_url s1 = api_url s2 ->
  (app_url s1 = app_url s2 ->
   (webhookUrl s1 = webhookUrl s2 <-> Js.render (urlToken s1) = Js.render (urlToken s2)))
  /\ (Js.truthyStr (api_url s1) = true -> urlToken s1 = urlToken s2 ->
      webhookUrl s1 = webhookUrl s2).
Proof.
  intros Hapi. unfold webhookUrl. rewrite Hapi. split.
  - intros Happ. rewrite Happ. split.
    + intros H. apply String.app_inj in H. apply String.app_inj in H. exact H.
    + intros H. rewrite H. reflexivity.
  - intros Hset Htok. rewrite Hset, Htok. reflexivity.
Qed.

Lemma webhookUrl_token_witness :
  webhookUrl {| api_url := Some "https://api.example.org/";
                app_url := Some "https://example.org/"; urlToken := Some "t0k3n" |}
  = webhookUrl {| api_url := Some "https://api.example.org/";
                  app_url := None; urlToken := Some "t0k3n" |}.
Proof.
  exact (proj2 (webhookUrl_token
                  {| api_url := Some "https://api.example.org/";
                     app_url := Some "https://example.org/"; urlToken := Some "t0k3n" |}
                  {| api_url := Some "https://api.example.org/";
                     app_url := None; urlToken := Some "t0k3n" |} eq_refl)
               eq_refl eq_refl).
Defined.

(** ** Properties of the log helper *)

Lemma append_cons a s t : String a s +:+ t = String a (s +:+ t).
Proof. reflexivity. Qed.

Lemma findById_none gid l :
  LogHelper.findById gid l = None <-> forall g, In g l -> LogHelper.gear_id g <> gid.
Proof.
  unfold LogHelper.findById. split.
  - intros Hnone g Hin Heq.
    pose proof (find_none _ _ Hnone g Hin) as Hf. cbn in Hf.
    rewrite Heq, String.eqb_refl in Hf. discriminate Hf.
  - intros Hall.
    destruct (find (fun g => String.eqb (LogHelper.gear_id g) gid) l) as [g|] eqn:Hfind;
      [|reflexivity].
    apply find_some in Hfind. destruct Hfind as [Hin Heq].
    apply String.eqb_eq in Heq. exfalso. exact (Hall g Hin Heq).
Qed.

Lemma findById_some gid l g :
  LogHelper.findById gid l = Some g -> In g l /\ LogHelper.gear_id g = gid.
Proof.
  unfold LogHelper.findById. intros Hfind. apply find_some in Hfind.
  destruct Hfind as [Hin Heq]. apply String.eqb_eq in Heq. split; assumption.
Qed.

(** X13.  [gearwearConfig] answers "Invalid GearWear <id> (not found)}"
    (closing brace included) exactly when neither a bike nor a shoe of the
    user has the id of the configuration. *)
Theorem gearwearConfig_invalid_iff lUser lConfig :
  LogHelper.gearwearConfig lUser lConfig
    = "Invalid GearWear " +:+ LogHelper.config_id lConfig +:+ " (not found)}"
  <-> forall g,
        In g (LogHelper.bikes (LogHelper.profile lUser)
              ++ LogHelper.shoes (LogHelper.profile lUser)) ->
        LogHelper.gear_id g <> LogHelper.config_id lConfig.
Proof.
  unfold LogHelper.gearwearConfig. split.
  - intros Hres g Hin.
    destruct (LogHelper.findById (LogHelper.config_id lConfig)
                (LogHelper.bikes (LogHelper.profile lUser))) as [b|] eqn:Hb.
    { rewrite !append_cons in Hres. discriminate Hres. }
    destruct (LogHelper.findById (LogHelper.config_id lConfig)
                (LogHelper.shoes (LogHelper.profile lUser))) as [s|] eqn:Hs.
    { rewrite !append_cons in Hres. discriminate Hres. }
    apply in_app_or in Hin. destruct Hin as [Hin|Hin].
    + exact (proj1 (findById_none _ _) Hb g Hin).
    + exact (proj1 (findById_none _ _) Hs g Hin).
  - intros Hall.
    assert (Hb : LogHelper.findById (LogHelper.config_id lConfig)
                   (LogHelper.bikes (LogHelper.profile lUser)) = None)
      by (apply findById_none; intros g Hin; apply Hall, in_or_app; left; exact Hin).
    assert (Hs : LogHelper.findById (LogHelper.config_id lConfig)
                   (LogHelper.shoes (LogHelper.profile lUser)) = None)
      by (apply findById_none; intros g Hin; apply Hall, in_or_app; right; exact Hin).
    rewrite Hb, Hs. reflexivity.
Qed.

(** X14.  When some bike or shoe of the user has the id of the
    configuration, [gearwearConfig] answers "GearWear <id> - <name>" with
    the name of a gear of the user that has this id, and that gear is a
    bike whenever a bike has the id: bikes are looked up before shoes. *)
Theorem gearwearConfig_names_gear lUser lConfig :
  (exists g, In g (LogHelper.bikes (LogHelper.profile lUser)
                   ++ LogHelper.shoes (LogHelper.profile lUser))
             /\ LogHelper.gear_id g = LogHelper.config_id lConfig) ->
  exists g,
    In g (LogHelper.bikes (LogHelper.profile lUser)
          ++ LogHelper.shoes (LogHelper.profile lUser))
    /\ LogHelper.gear_id g = LogHelper.config_id lConfig
    /\ LogHelper.gearwearConfig lUser lConfig
       = "GearWear " +:+ LogHelper.config_id lConfig +:+ " - "
         +:+ Js.render (LogHelper.gear_name g)
    /\ ((exists b, In b (LogHelper.bikes (LogHelper.profile lUser))
                   /\ LogHelper.gear_id b = LogHelper.config_id lConfig) ->
        In g (LogHelper.bikes (LogHelper.profile lUser))).
Proof.
  intros (g0 & Hin0 & Hid0). unfold LogHelper.gearwearConfig.
  destruct (LogHelper.findById (LogHelper.config_id lConfig)
              (LogHelper.bikes (LogHelper.profile lUser))) as [b|] eqn:Hb.
  - destruct (findById_some _ _ _ Hb) as [Hin Hid].
    exists b. split; [apply in_or_app; left; exact Hin|].
    split; [exact Hid|]. split; [reflexivity|]. intros _. exact Hin.
  - destruct (LogHelper.findById (LogHelper.config_id lConfig)
                (LogHelper.shoes (LogHelper.profile lUser))) as [s|] eqn:Hs.
    + destruct (findById_some _ _ _ Hs) as [Hin Hid].
      exists s. split; [apply in_or_app; right; exact Hin|].
      split; [exact Hid|]. split; [reflexivity|].
      intros (b & Hbin & Hbid). exfalso.
      exact (proj1 (findById_none _ _) Hb b Hbin Hbid).
    + exfalso. apply in_app_or in Hin0. destruct Hin0 as [Hin0|Hin0].
      * exact (proj1 (findById_none _ _) Hb g0 Hin0 Hid0).
      * exact (proj1 (findById_none _ _) Hs g0 Hin0 Hid0).
Qed.

Lemma gearwearConfig_names_gear_witness :
  let bike := {| LogHelper.gear_id := "g1"; LogHelper.gear_name := Some "Gravel" |} in
  let shoe := {| LogHelper.gear_id := "g1"; LogHelper.gear_name := Some "Trail" |} in
  let lUser := {| LogHelper.user_id := Some "u1"; LogHelper.displayName := None;
                  LogHelper.profile := {| LogHelper.bikes := [bike];
                                          LogHelper.shoes := [shoe] |} |} in
  exists g,
    In g [bike]
    /\ LogHelper.gearwearConfig lUser {| LogHelper.config_id := "g1" |}
       = "GearWear g1 - " +:+ Js.render (LogHelper.gear_name g).
Proof.
  cbv zeta.
  destruct (gearwearConfig_names_gear
              {| LogHelper.user_id := Some "u1"; LogHelper.displayName := None;
                 LogHelper.profile :=
                   {| LogHelper.bikes :=
                        [{| LogHelper.gear_id := "g1"; LogHelper.gear_name := Some "Gravel" |}];
                      LogHelper.shoes :=
                        [{| LogHelper.gear_id := "g1"; LogHelper.gear_name := Some "Trail" |}] |} |}
              {| LogHelper.config_id := "g1" |})
    as (g & _ & _ & Hres & Hbike).
  - eexists. split; [left; reflexivity | reflexivity].
  - exists g. split.
    + apply Hbike. eexists. split; [left; reflexivity | reflexivity].
    + exact Hres.
Defined.

Lemma hasChar_app c a b :
  LogHelper.hasChar c (a +:+ b) = LogHelper.hasChar c a || LogHelper.hasChar c b.
Proof.
  induction a as [|x a IH]; [reflexivity|].
  rewrite append_cons. cbn [LogHelper.hasChar]. rewrite IH. apply orb_assoc.
Qed.

(** X15.  The guard of [paddleEvent] never fires: it tests the helper
    itself instead of its argument, so no event makes [paddleEvent] answer
    "Activity unknown", and a missing event raises a TypeError on the first
    property read. *)
Theorem paddleEvent_guard_never_fires :
  LogHelper.paddleEvent None = Throw (undefinedRead "eventType")
  /\ forall lEvent, LogHelper.paddleEvent lEvent <> Ok "Activity unknown".
Proof.
  split; [reflexivity|].
  intros [e|]; [|discriminate]. unfold LogHelper.paddleEvent. cbn [negb].
  destruct (LogHelper.event_data e) as [d|]; [|discriminate].
  intros H. injection H as H.
  apply (f_equal (LogHelper.hasChar ":")) in H.
  rewrite hasChar_app, hasChar_app in H.
  change (LogHelper.hasChar ":" ": ") with true in H.
  change (LogHelper.hasChar ":" "Activity unknown") with false in H.
  rewrite orb_true_l, orb_true_r in H. discriminate H.
Qed.

Lemma stripPrefix_app pat s : LogHelper.stripPrefix pat (pat +:+ s) = Some s.
Proof.
  induction pat as [|a pat IH]; [destruct s; reflexivity|].
  rewrite append_cons. cbn [LogHelper.stripPrefix]. rewrite Ascii.eqb_refl. exact IH.
Qed.

Lemma stripPrefix_some pat s rest :
  LogHelper.stripPrefix pat s = Some rest -> s = pat +:+ rest.
Proof.
  revert s. induction pat as [|a pat IH]; intros s H.
  - destruct s; injection H as <-; reflexivity.
  - destruct s as [|b s]; [discriminate H|]. cbn [LogHelper.stripPrefix] in H.
    destruct (Ascii.eqb_spec a b) as [<-|]; [|discriminate H].
    rewrite append_cons. f_equal. apply IH, H.
Qed.

Lemma occursIn_tail pat c s :
  LogHelper.occursIn pat (String c s) ->
  LogHelper.stripPrefix pat (String c s) = None ->
  LogHelper.occursIn pat s.
Proof.
  intros (before & after & Hs) Hnone. destruct before as [|b before].
  - change ("" +:+ pat +:+ after) with (pat +:+ after) in Hs.
    rewrite Hs, stripPrefix_app in Hnone. discriminate Hnone.
  - rewrite append_cons in Hs. injection Hs as _ Hs. exists before, after. exact Hs.
Qed.

Lemma replaceFirst_absent pat rep s :
  ~ LogHelper.occursIn pat s -> LogHelper.replaceFirst pat rep s = s.
Proof.
  induction s as [|c s IH]; intros Habsent.
  - cbn [LogHelper.replaceFirst].
    destruct (LogHelper.stripPrefix pat "") as [rest|] eqn:Hstrip; [|reflexivity].
    exfalso. apply Habsent. exists "", rest. exact (stripPrefix_some _ _ _ Hstrip).
  - cbn [LogHelper.replaceFirst].
    destruct (LogHelper.stripPrefix pat (String c s)) as [rest|] eqn:Hstrip.
    + exfalso. apply Habsent. exists "", rest. exact (stripPrefix_some _ _ _ Hstrip).
    + f_equal. apply IH. intros (before & after & Hs). apply Habsent.
      exists (String c before), after. rewrite append_cons, Hs. reflexivity.
Qed.

Lemma replaceFirst_present pat rep s :
  LogHelper.occursIn pat s ->
  exists before after,
    s = before +:+ pat +:+ after
    /\ LogHelper.replaceFirst pat rep s = before +:+ rep +:+ after.
Proof.
  induction s as [|c s IH]; intros Hocc.
  - destruct Hocc as (before & after & Hs).
    destruct before as [|b before]; [|rewrite append_cons in Hs; discriminate Hs].
    change ("" +:+ pat +:+ after) with (pat +:+ after) in Hs.
    exists "", after. split; [exact Hs|].
    cbn [LogHelper.replaceFirst]. rewrite Hs at 1. rewrite stripPrefix_app. reflexivity.
  - cbn [LogHelper.replaceFirst].
    destruct (LogHelper.stripPrefix pat (String c s)) as [rest|] eqn:Hstrip.
    + exists "", rest. split; [exact (stripPrefix_some _ _ _ Hstrip) | reflexivity].
    + destruct (IH (occursIn_tail pat c s Hocc Hstrip)) as (before & after & Hs & Hrep).
      exists (String c before), after. rewrite !append_cons, <- Hs, Hrep. split; reflexivity.
Qed.

(** X16.  [garminPing] shows the activity id with one occurrence of
    "activity" removed: an id without "activity" is shown as it is, an id
    with it is shown with one occurrence cut out and everything else kept,
    and an id that starts with "activity" is shown without that prefix. *)
Theorem garminPing_removes_one_marker p :
  let shown id := "Garmin activity " +:+ id +:+ " - "
                  +:+ Js.render (LogHelper.activityName p) in
  (~ LogHelper.occursIn "activity" (LogHelper.activityId p) ->
   LogHelper.garminPing (Some p) = shown (LogHelper.activityId p))
  /\ (LogHelper.occursIn "activity" (LogHelper.activityId p) ->
      exists before after,
        LogHelper.activityId p = before +:+ "activity" +:+ after
        /\ LogHelper.garminPing (Some p) = shown (before +:+ after))
  /\ (forall rest, LogHelper.activityId p = "activity" +:+ rest ->
      LogHelper.garminPing (Some p) = shown rest).
Proof.
  cbv zeta. unfold LogHelper.garminPing. split; [|split].
  - intros Habsent. rewrite (replaceFirst_absent _ _ _ Habsent). reflexivity.
  - intros Hocc.
    destruct (replaceFirst_present "activity" "" _ Hocc) as (before & after & Hs & Hrep).
    exists before, after. split; [exact Hs|]. rewrite Hrep. reflexivity.
  - intros rest Hid. rewrite Hid.
    replace (LogHelper.replaceFirst "activity" "" ("activity" +:+ rest)) with rest;
      [reflexivity|].
    destruct rest; reflexivity.
Qed.

(** X17.  [user] answers a non-empty string exactly when the user has an
    id or a display name.  With both it answers "User <id> <name>"; with
    one of them it answers that value alone, without the "User " prefix;
    with neither it answers the display name as it is (undefined or empty),
    not "User unknown". *)
Theorem user_result u :
  Js.truthyStr (LogHelper.user (Some u))
    = Js.truthyStr (LogHelper.user_id u) || Js.truthyStr (LogHelper.displayName u)
  /\ (Js.truthyStr (LogHelper.user_id u) = true ->
      Js.truthyStr (LogHelper.displayName u) = false ->
      LogHelper.user (Some u) = LogHelper.user_id u)
  /\ (Js.truthyStr (LogHelper.user_id u) = false ->
      LogHelper.user (Some u) = LogHelper.displayName u)
  /\ (Js.truthyStr (LogHelper.user_id u) = true ->
      Js.truthyStr (LogHelper.displayName u) = true ->
      LogHelper.user (Some u)
        = Some ("User " +:+ Js.render (LogHelper.user_id u) +:+ " "
                +:+ Js.render (LogHelper.displayName u))).
Proof.
  unfold LogHelper.user.
  destruct (Js.truthyStr (LogHelper.user_id u)) eqn:Hid;
    destruct (Js.truthyStr (LogHelper.displayName u)) eqn:Hname; cbn [andb orb];
    repeat split; try discriminate; try reflexivity; assumption.
Qed.

(** ** [authenticate] on errors whose body is not checked *)

Lemma pushDetails_run entries details :
  Raw.pushDetails entries details =
    if forallb isObject entries
    then Raw.Returns (details ++ map detailPart (omap (fun entry => entry) entries))
    else Raw.Raises Raw.nullDetailRead.
Proof.
  revert details. induction entries as [|[d|] entries IH]; intros details.
  - cbn. rewrite app_nil_r. reflexivity.
  - cbn [Raw.pushDetails forallb isObject andb]. rewrite IH.
    destruct (forallb isObject entries); [|reflexivity].
    cbn. rewrite <- app_assoc. reflexivity.
  - reflexivity.
Qed.

Lemma objects_back entries :
  forallb isObject entries = true ->
  map Some (omap (fun entry => entry) entries) = entries.
Proof.
  induction entries as [|[d|] entries IH]; intros H.
  - reflexivity.
  - cbn in H |- *. rewrite (IH H). reflexivity.
  - discriminate H.
Qed.

Lemma raw_typed ex : Raw.shaped ex = true -> Raw.raw (Raw.typed ex) = ex.
Proof.
  destruct ex as [m|m|code [[st [[n msg ds]|]]|]|m]; try reflexivity.
  unfold Raw.shaped. cbn. intros H. fold isObject in H.
  rewrite (objects_back ds H). reflexivity.
Qed.

(** On an error whose [details] hold objects only, the raw normaliser
    returns what the typed one returns. *)
Lemma parseResponseError_shaped stringify ex :
  Raw.shaped ex = true ->
  exists n,
    Raw.parseResponseError stringify ex = Raw.Returns n
    /\ Raw.logged n = parseResponseError (fun e => stringify (Raw.raw e)) (Raw.typed ex).
Proof.
  intros Hshaped. pose proof (raw_typed ex Hshaped) as Hback.
  destruct ex as [m|m|code [[st [[n msg ds]|]]|]|m];
    try (eexists; split; reflexivity).
  unfold Raw.shaped in Hshaped. cbn in Hshaped. fold isObject in Hshaped.
  unfold Raw.parseResponseError, parseResponseError, statusPart, namePart.
  cbn [Raw.replyOf Raw.replyData Raw.replyStatus Raw.bodyName Raw.bodyMessage
       Raw.bodyDetails Raw.typed response option_map data status name message details].
  rewrite pushDetails_run, Hshaped.
  eexists. split; [reflexivity|]. cbn [Raw.logged]. rewrite <- app_assoc.
  destruct ((if Js.truthyN st then ["Status " +:+ Js.renderN (default 0%N st)] else []) ++
            (if Js.truthyStr n then [Js.render n]
             else if Js.truthyStr msg then [Js.render msg] else []) ++
            map detailPart (omap (fun entry => entry) ds)) eqn:Hparts;
    [|reflexivity].
  apply (f_equal NText), (f_equal (Js.join ", ")), (f_equal (fun x => [x])),
    (f_equal stringify).
  symmetry. exact Hback.
Qed.

(** On an error with a null entry in [details], it raises. *)
Lemma parseResponseError_unshaped stringify ex :
  Raw.shaped ex = false ->
  Raw.parseResponseError stringify ex = Raw.Raises Raw.nullDetailRead.
Proof.
  destruct ex as [m|m|code [[st [[n msg ds]|]]|]|m]; try discriminate.
  unfold Raw.shaped. cbn. fold isObject. intros H.
  unfold Raw.parseResponseError. cbn. rewrite pushDetails_run, H. reflexivity.
Qed.

Ltac raw_unfold :=
  unfold Raw.authenticate, Raw.caught, Raw.appStateSet, Raw.bind, Raw.tryCatch,
    Raw.emit, Raw.await, Raw.ret, Raw.throw, Raw.modify, Raw.eval.

(** Where every error is of the provider's shape, the raw [authenticate]
    is the typed one. *)
Lemma authenticate_refines renv mEndpoint w :
  (forall ex, Raw.caught renv mEndpoint = Some ex -> Raw.shaped ex = true) ->
  Raw.authenticate renv mEndpoint w = liftRun (authenticate (Raw.toEnv renv) mEndpoint w).
Proof.
  unfold authenticate, appStateSet, bind, tryCatch, emit, await, ret, throw, modify.
  raw_unfold. cbn [Raw.toEnv tokenExchange appStateSetFails JSON_stringify].
  change (tokenUrl (Raw.toEnv renv) mEndpoint)
    with (tokenUrl (Raw.settingsOf renv) mEndpoint).
  destruct (Raw.exchange renv (tokenUrl (Raw.settingsOf renv) mEndpoint)) as [[r|]|ex];
    intros Hshaped.
  - change (tokenData (Raw.toEnv renv) r) with (tokenData (Raw.settingsOf renv) r).
    destruct (Raw.storeFails renv mEndpoint (tokenData (Raw.settingsOf renv) r)) as [ex|].
    + destruct (parseResponseError_shaped (Raw.stringify renv) ex (Hshaped ex eq_refl))
        as (n & Hparse & Hlogged).
      destruct mEndpoint; cbn; rewrite Hparse; cbn; rewrite Hlogged; reflexivity.
    + destruct mEndpoint; reflexivity.
  - reflexivity.
  - destruct (parseResponseError_shaped (Raw.stringify renv) ex (Hshaped ex eq_refl))
      as (n & Hparse & Hlogged).
    cbn. rewrite Hparse. cbn. rewrite Hlogged. reflexivity.
Qed.

(** C4 (as amended).  [authenticate] returns a boolean, without raising,
    whenever the error thrown inside its [try] block, if any, has a body of
    the provider's shape (every entry of [details] an object): true exactly
    when the token endpoint answered with a body that is not null and the
    store accepted the write, false when the transport rejected, the body
    was empty or the write was rejected.  When that error holds a null
    entry in [details], [parseResponseError] throws in the [catch] block
    and [authenticate] raises that TypeError instead of returning. *)
Theorem authenticate_boolean_or_null_detail renv mEndpoint w :
  exists t w',
    Raw.authenticate renv mEndpoint w =
      (t, w',
       match Raw.caught renv mEndpoint with
       | None => Raw.Returns true
       | Some ex =>
           if Raw.shaped ex then Raw.Returns false else Raw.Raises Raw.nullDetailRead
       end)
    /\ (Raw.caught renv mEndpoint = None <->
        exists r,
          Raw.exchange renv (tokenUrl (Raw.settingsOf renv) mEndpoint)
            = Raw.Fulfils (Some r)
          /\ Raw.storeFails renv mEndpoint (tokenData (Raw.settingsOf renv) r) = None).
Proof.
  raw_unfold.
  destruct (Raw.exchange renv (tokenUrl (Raw.settingsOf renv) mEndpoint)) as [[r|]|ex].
  - destruct (Raw.storeFails renv mEndpoint (tokenData (Raw.settingsOf renv) r))
      as [ex|] eqn:Hstore.
    + destruct (Raw.shaped ex) eqn:Hshaped.
      * destruct (parseResponseError_shaped (Raw.stringify renv) ex Hshaped)
          as (n & Hparse & _).
        destruct mEndpoint; cbn; rewrite Hparse; cbn; eexists _, _;
          (split; [reflexivity|]); (split; [discriminate|]);
          intros (r' & Hr' & Hnone); injection Hr' as <-; congruence.
      * destruct mEndpoint; cbn;
          rewrite (parseResponseError_unshaped (Raw.stringify renv) ex Hshaped);
          cbn; eexists _, _;
          (split; [reflexivity|]); (split; [discriminate|]);
          intros (r' & Hr' & Hnone); injection Hr' as <-; congruence.
    + destruct mEndpoint; cbn; eexists _, _; (split; [reflexivity|]);
        (split; [|reflexivity]); intros _; exists r; (split; [reflexivity | exact Hstore]).
  - cbn. eexists _, _. split; [reflexivity|]. split; [discriminate|].
    intros (r' & Hr' & _). discriminate Hr'.
  - destruct (Raw.shaped ex) eqn:Hshaped.
    + destruct (parseResponseError_shaped (Raw.stringify renv) ex Hshaped)
        as (n & Hparse & _).
      cbn. rewrite Hparse. cbn. eexists _, _. split; [reflexivity|].
      split; [discriminate|]. intros (r' & Hr' & _). discriminate Hr'.
    + cbn. rewrite (parseResponseError_unshaped (Raw.stringify renv) ex Hshaped).
      cbn. eexists _, _. split; [reflexivity|].
      split; [discriminate|]. intros (r' & Hr' & _). discriminate Hr'.
Qed.

(** C4, as stated, fails twice.  A malformed token response that carries no
    [access_token] is no failure for the code: [authenticate] returns true
    and stores a credential without a token.  And [authenticate] can raise:
    when the token request is rejected with a body whose [details] hold a
    null entry, the normaliser throws in the [catch] block and the TypeError
    escapes. *)
Lemma authenticate_tokenless_body_and_null_detail :
  let settings := Fixture.envWith Fixture.networkDown false 1000 in
  let tokenless :=
    {| Raw.settingsOf := settings;
       Raw.exchange := fun _ =>
         Raw.Fulfils (Some {| access_token := None; expires_in := None |});
       Raw.storeFails := fun _ _ => None;
       Raw.stringify := fun _ => "{}" |} in
  let nullDetail :=
    {| Raw.settingsOf := settings;
       Raw.exchange := fun _ =>
         Raw.Rejected
           (Raw.AxiosErr "ERR_BAD_REQUEST"
              (Some {| Raw.replyStatus := Some 400%N;
                       Raw.replyData :=
                         Some {| Raw.bodyName := Some "INVALID_REQUEST";
                                 Raw.bodyMessage := None;
                                 Raw.bodyDetails := [None] |} |}));
       Raw.storeFails := fun _ _ => None;
       Raw.stringify := fun _ => "{}" |} in
  snd (Raw.authenticate tokenless false Fixture.staleWorld) = Raw.Returns true
  /\ auth (snd (fst (Raw.authenticate tokenless false Fixture.staleWorld)))
     = Some {| accessToken := None; expiresAt := 4420 |}
  /\ snd (Raw.authenticate nullDetail false Fixture.staleWorld)
     = Raw.Raises (Raw.TypeErr "Cannot read properties of null (reading 'issue')").
Proof. repeat split. Qed.
